(** * bladerf_rx: a shallow embedding of [bladerf_rx.c]

    The capture program streams samples from a bladeRF receiver into a
    pre-sized, memory-mapped file and truncates the file to the number of
    bytes received when it stops.

    Platform assumptions (Linux, LP64, IEEE 754, round to nearest even,
    FLT_EVAL_METHOD 0): [size_t], [unsigned long] and
    [unsigned long long] are 64 bits wide, [int] and [unsigned int] 32 bits
    wide, [off_t] is a signed 64-bit integer, [float] is binary32 and
    [double] is binary64. *)

From Stdlib Require Import ZArith Lia Ascii String.
From Stdlib Require Import Floats.SpecFloat.
From stdpp Require Import gmap strings list list_numbers sorting.

Local Open Scope string_scope.
Local Open Scope list_scope.
Local Open Scope Z_scope.

(** ** C integer types *)

Module CInt.

Definition SIZE_MAX : Z := 2 ^ 64 - 1.
Definition ULLONG_MAX : Z := 2 ^ 64 - 1.
Definition LONG_MAX : Z := 2 ^ 63 - 1.
Definition LONG_MIN : Z := - 2 ^ 63.
Definition INT_MIN : Z := - 2 ^ 31.

(** Conversion to a [w]-bit unsigned type. *)
Definition to_unsigned (w : Z) (x : Z) : Z := x mod 2 ^ w.

(** Conversion to a [w]-bit signed type (two's complement). *)
Definition to_signed (w : Z) (x : Z) : Z :=
  let u := x mod 2 ^ w in
  if u <? 2 ^ (w - 1) then u else u - 2 ^ w.

Definition to_size_t : Z -> Z := to_unsigned 64.
Definition to_uint : Z -> Z := to_unsigned 32.
Definition to_int : Z -> Z := to_signed 32.
Definition to_off_t : Z -> Z := to_signed 64.

Definition is_size_t (x : Z) : Prop := 0 <= x <= SIZE_MAX.

End CInt.
Import CInt.

(** ** The C library's number parsers

    [strtoull] and [atoi] belong to the C library, not to the program; they
    are written down here after ISO C 7.22.1 (and glibc for the value on
    overflow) for base 10: leading white space is skipped, one sign is
    accepted, the longest run of decimal digits is converted, an
    out-of-range value saturates, and a leading minus negates the result in
    the result type. *)

Module Libc.

Definition isspace (c : ascii) : bool :=
  let n := Z.of_N (N_of_ascii c) in
  (n =? 32) || ((9 <=? n) && (n <=? 13)).

Definition digit_value (c : ascii) : option Z :=
  let n := Z.of_N (N_of_ascii c) in
  if (48 <=? n) && (n <=? 57) then Some (n - 48) else None.

Fixpoint skip_space (s : string) : string :=
  match s with
  | String c s' => if isspace c then skip_space s' else s
  | EmptyString => s
  end.

(** Value of the longest prefix of decimal digits, starting from [acc]. *)
Fixpoint digits_from (acc : Z) (s : string) : Z :=
  match s with
  | String c s' =>
      match digit_value c with
      | Some d => digits_from (10 * acc + d) s'
      | None => acc
      end
  | EmptyString => acc
  end.

(** Sign and magnitude of the subject sequence. *)
Definition subject (s : string) : bool * Z :=
  match skip_space s with
  | String "-" s' => (true, digits_from 0 s')
  | String "+" s' => (false, digits_from 0 s')
  | s' => (false, digits_from 0 s')
  end.

Definition strtoull (s : string) : Z :=
  let '(neg, v) := subject s in
  if ULLONG_MAX <? v then ULLONG_MAX
  else if neg then to_unsigned 64 (- v) else v.

Definition strtol (s : string) : Z :=
  let '(neg, v) := subject s in
  if neg then (if v <? - LONG_MIN then - v else LONG_MIN)
  else (if v <? LONG_MAX then v else LONG_MAX).

Definition atoi (s : string) : Z := to_int (strtol s).

End Libc.

(** ** Binary floating point

    [float] values are [spec_float]s in binary32 canonical form, [double]
    values in binary64 canonical form. *)

Module CFloat.

Definition round_to (prec emax : Z) (x : spec_float) : spec_float :=
  match x with
  | S754_finite s m e => binary_round prec emax s m e
  | _ => x
  end.

(** [(double) x] for a float [x]: exact. *)
Definition to_double : spec_float -> spec_float := round_to 53 1024.

(** [(float) x] for a double [x]: rounds to nearest, ties to even. *)
Definition to_float : spec_float -> spec_float := round_to 24 128.

(** The double constant denoted by a non-negative integer literal such
    as [1000.0]. *)
Definition double_of_Z (n : Z) : spec_float := binary_normalize 53 1024 n 0 false.

(** [(float) n] for an unsigned integer [n]. *)
Definition float_of_Z (n : Z) : spec_float := binary_normalize 24 128 n 0 false.

(** [a >= b] on doubles (false when either is a NaN). *)
Definition double_ge (a b : spec_float) : bool := SFleb b a.

Definition double_div : spec_float -> spec_float -> spec_float := SFdiv 53 1024.

End CFloat.
Import CFloat.

(** ** [autoscale_float] *)

(** [static const char mult[] = " kMG"]. *)
Definition mult : string := " kMG".

(** [val >= 1000.0]: the float is promoted to double for the comparison. *)
Definition ge_1000 (val : spec_float) : bool :=
  double_ge (to_double val) (double_of_Z 1000).

(** [val /= 1000.0]: the quotient is computed in double and stored back
    into the float. *)
Definition div_1000 (val : spec_float) : spec_float :=
  to_float (double_div (to_double val) (double_of_Z 1000)).

(** The loop [for (; (val >= 1000.0) && p[1]; p++) val /= 1000.0;] with [p]
    the rest of [mult] from the current position on; [p[1]] is the
    terminating NUL exactly when that rest has one character. The result is
    the pair of the returned value and the character stored in [*suffix]. *)
Fixpoint autoscale_from (p : string) (val : spec_float) : spec_float * ascii :=
  match p with
  | String c p' =>
      match p' with
      | String _ _ =>
          if ge_1000 val then autoscale_from p' (div_1000 val) else (val, c)
      | EmptyString => (val, c)
      end
  | EmptyString => (val, zero)
  end.

Definition autoscale_float (val : spec_float) : spec_float * ascii :=
  autoscale_from mult val.

(** ** [parse_fsize] *)

Fixpoint last_char (s : string) : option ascii :=
  match s with
  | EmptyString => None
  | String c EmptyString => Some c
  | String _ s' => last_char s'
  end.

(** The multiplier selected by [switch (suffix)]. *)
Definition suffix_mult (suffix : ascii) : Z :=
  if Ascii.eqb suffix "M" then 1000 * 1000
  else if Ascii.eqb suffix "G" then 1000 * 1000 * 1000
  else if Ascii.eqb suffix "T" then 1000 * 1000 * 1000 * 1000
  else 0.

(** [parse_fsize arg]. For the empty string [arg[len-1]] reads the byte in
    front of the argument, which C leaves undefined: the model answers
    [None] there. The product is taken in [size_t]. *)
Definition parse_fsize (arg : string) : option Z :=
  match last_char arg with
  | None => None
  | Some suffix => Some (to_size_t (Libc.strtoull arg * suffix_mult suffix))
  end.

(** ** The outside world

    The program talks to the file system, to libbladeRF and to its output
    streams. The world records the files with their sizes, the open
    descriptors and, in order, every call the program made. *)

(** A pointer is null, [MAP_FAILED], or an address inside the one mapping
    the program creates, given as a byte offset from its start. *)
Inductive pointer := NULL | MAP_FAILED | Mapped (off : Z).

(** [struct bladerf_metadata] as filled in by one [bladerf_sync_rx] call,
    together with the call's return value. *)
Record delivery := {
  d_res : Z;      (* int: 0 on success *)
  d_actual : Z;   (* unsigned int actual_count *)
  d_status : Z    (* uint32_t status *)
}.

(** The libbladeRF calls other than [bladerf_sync_rx] and [bladerf_close],
    with the arguments that vary. *)
Inductive dev_call :=
| bladerf_open
| bladerf_set_frequency (hz : Z)
| bladerf_set_sample_rate (rate : Z)
| bladerf_set_bandwidth (hz : Z)
| bladerf_set_gain_mode (manual : bool)
| bladerf_set_gain (gain : Z)
| bladerf_sync_config (num_buffers buffer_size num_transfers timeout_ms : Z)
| bladerf_enable_module (on : bool).

Inductive event :=
| ev_usage
| ev_perror (what : string)
| ev_stderr (msg : string)
| ev_fopen (path : string) (ok : bool)
| ev_open (path : string) (fd : Z)
| ev_ftruncate (fd len r : Z)
| ev_mmap (len fd : Z) (p : pointer)
| ev_msync (len r : Z)
| ev_munmap (len : Z)
| ev_close (fd : Z)
| ev_sigaction
| ev_dev (c : dev_call) (r : Z)
| ev_sync_rx (dst num_samples : Z) (d : delivery)
| ev_clear_line
| ev_fclose
| ev_bladerf_close
| ev_wrote (fv : spec_float) (suffix : ascii) (written : Z).

(** What the environment answers. A file operation fails when the file
    system forces it to (the path exists, the length is negative or zero)
    or when the environment says so; each call site runs at most once, so
    one answer per call site is enough. [signal_at = Some k] means that
    SIGINT or SIGTERM is delivered before the program reads [stop_flag] for
    the [k]-th time (counting from 0), [None] that no signal arrives. *)
Record env := {
  fs0 : gmap string Z;
  fopen_fails : bool;
  open_fails : bool;
  presize_fails : bool;
  mmap_fails : bool;
  msync_fails : bool;
  truncate_fails : bool;
  dev_status : dev_call -> Z;
  deliveries : list delivery;
  signal_at : option nat
}.

Record world := {
  fs : gmap string Z;       (* path to size in bytes *)
  fds : gmap Z string;      (* open descriptors *)
  next_fd : Z;
  out : list event
}.

Definition init_world (e : env) : world :=
  {| fs := fs0 e; fds := ∅; next_fd := 3; out := [] |}.

Definition emit (ev : event) (w : world) : world :=
  {| fs := fs w; fds := fds w; next_fd := next_fd w; out := out w ++ [ev] |}.

Definition perror (what : string) : world -> world := emit (ev_perror what).

(** [static volatile sig_atomic_t stop_flag]: set by [handle_signal], never
    cleared; [n] is the number of reads made before this one. *)
Definition stop_flag (sig : option nat) (n : nat) : bool :=
  match sig with
  | Some k => (k <=? n)%nat
  | None => false
  end.

Module Sys.

(** Creates [path] exclusively and opens it; descriptors are handed out
    in increasing order from 3. Returns the descriptor or -1. *)
Definition create_excl (fail : bool) (path : string) (w : world) : Z * world :=
  match fs w !! path with
  | Some _ => (-1, w)
  | None =>
      if fail then (-1, w)
      else (next_fd w,
            {| fs := <[path := 0]> (fs w); fds := <[next_fd w := path]> (fds w);
               next_fd := next_fd w + 1; out := out w |})
  end.

(** [fopen(path, "wx")]. *)
Definition fopen_wx (fail : bool) (path : string) (w : world) : bool * world :=
  let '(fd, w') := create_excl fail path w in
  (0 <=? fd, emit (ev_fopen path (0 <=? fd)) w').

(** [open(path, O_CREAT | O_EXCL | O_RDWR, ...)]. *)
Definition open (fail : bool) (path : string) (w : world) : Z * world :=
  let '(fd, w') := create_excl fail path w in
  (fd, emit (ev_open path fd) w').

(** [ftruncate(fd, len)] with [len] converted to [off_t]. *)
Definition ftruncate (fail : bool) (fd len : Z) (w : world) : Z * world :=
  let r :=
    match fds w !! fd with
    | Some _ => if fail || (to_off_t len <? 0) then -1 else 0
    | None => -1
    end in
  let fs' :=
    match fds w !! fd with
    | Some path => if r =? 0 then <[path := to_off_t len]> (fs w) else fs w
    | None => fs w
    end in
  (r, emit (ev_ftruncate fd len r)
        {| fs := fs'; fds := fds w; next_fd := next_fd w; out := out w |}).

(** [mmap(NULL, len, PROT_WRITE, MAP_SHARED | MAP_NORESERVE, fd, 0)]. *)
Definition mmap (fail : bool) (len fd : Z) (w : world) : pointer * world :=
  let p := if fail || (len =? 0) then MAP_FAILED else Mapped 0 in
  (p, emit (ev_mmap len fd p) w).

Definition msync (fail : bool) (len : Z) (w : world) : Z * world :=
  let r := if fail then -1 else 0 in
  (r, emit (ev_msync len r) w).

Definition munmap (len : Z) (w : world) : world := emit (ev_munmap len) w.

Definition close (fd : Z) (w : world) : world :=
  emit (ev_close fd)
    {| fs := fs w; fds := delete fd (fds w); next_fd := next_fd w; out := out w |}.

End Sys.

(** ** [struct mf], [create_file], [close_file] *)

Record mf := {
  fd : Z;
  map_base : pointer;
  map_size : Z
}.

(** [memset(mf, 0, sizeof(struct mf)); mf->fd = -1;] *)
Definition mf_cleared : mf := {| fd := -1; map_base := NULL; map_size := 0 |}.

(** Returns the function's result and [*mf]. *)
Definition create_file (e : env) (fn : string) (max_size : Z) (w : world)
  : Z * mf * world :=
  let '(fd, w) := Sys.open (open_fails e) fn w in
  if fd <? 0 then (fd, mf_cleared, perror "open" w)
  else
    let '(r, w) := Sys.ftruncate (presize_fails e) fd max_size w in
    if negb (r =? 0) then (-1, mf_cleared, Sys.close fd (perror "ftruncate" w))
    else
      let '(p, w) := Sys.mmap (mmap_fails e) max_size fd w in
      match p with
      | MAP_FAILED => (-1, mf_cleared, Sys.close fd (perror "mmap" w))
      | _ => (0, {| fd := fd; map_base := p; map_size := max_size |}, w)
      end.

(** [None] when one of the two assertions fails and the process aborts. *)
Definition close_file (e : env) (m : mf) (written : Z) (w : world) : option world :=
  if negb (0 <=? fd m) then None
  else
    match map_base m with
    | NULL | MAP_FAILED => None
    | Mapped _ =>
        let w :=
          if 0 <? written then
            let '(r, w) := Sys.msync (msync_fails e) written w in
            if negb (r =? 0) then perror "msync" w else w
          else w in
        let '(r, w) := Sys.ftruncate (truncate_fails e) (fd m) written w in
        let w := if negb (r =? 0) then perror "ftruncate (final)" w else w in
        let w := Sys.munmap (map_size m) w in
        Some (Sys.close (fd m) w)
    end.

(** ** Command line *)

(** One result of [getopt(argc, argv, "f:s:g:l:")] with its [optarg];
    [opt_other] stands for every other return value (['?']). *)
Inductive getopt_opt :=
| opt_f (optarg : string)
| opt_s (optarg : string)
| opt_g (optarg : string)
| opt_l (optarg : string)
| opt_other.

(** The locals of [main] set by the option loop; [None] is a null pointer. *)
Record args := {
  fname : option string;
  log_fname : option string;
  max_size : Z;
  manual_gain : Z
}.

Definition args_init : args :=
  {| fname := None; log_fname := None; max_size := 0; manual_gain := INT_MIN |}.

Inductive getopt_result :=
| Parsed (a : args)
| BadOption        (* usage(argv[0]); return 1; *)
| BadRead.         (* parse_fsize read in front of an empty argument *)

Fixpoint getopt_loop (opts : list getopt_opt) (a : args) : getopt_result :=
  match opts with
  | [] => Parsed a
  | opt_f optarg :: opts' =>
      getopt_loop opts'
        {| fname := Some optarg; log_fname := log_fname a;
           max_size := max_size a; manual_gain := manual_gain a |}
  | opt_s optarg :: opts' =>
      match parse_fsize optarg with
      | Some n =>
          getopt_loop opts'
            {| fname := fname a; log_fname := log_fname a;
               max_size := n; manual_gain := manual_gain a |}
      | None => BadRead
      end
  | opt_g optarg :: opts' =>
      getopt_loop opts'
        {| fname := fname a; log_fname := log_fname a;
           max_size := max_size a; manual_gain := Libc.atoi optarg |}
  | opt_l optarg :: opts' =>
      getopt_loop opts'
        {| fname := fname a; log_fname := Some optarg;
           max_size := max_size a; manual_gain := manual_gain a |}
  | opt_other :: _ => BadOption
  end.

(** ** The receive loop *)

Definition DEFAULT_FREQ : Z := 866450000.
Definition DEFAULT_SAMPLERATE : Z := 8000000.
Definition DEFAULT_BANDWIDTH : Z := 7000000.
Definition NUM_BUFFERS : Z := 64.
Definition NUM_SAMPLES : Z := 127 * 2048.
Definition NUM_TRANSFERS : Z := 16.
Definition TIMEOUT_MS : Z := 3500.

(** From [libbladeRF.h]: [#define BLADERF_META_STATUS_OVERRUN (1 << 0)]. *)
Definition BLADERF_META_STATUS_OVERRUN : Z := Z.shiftl 1 0.

Definition MIN (a b : Z) : Z := if a <=? b then a else b.

(** The locals of [main] the loop works on. [dst] is kept as its distance
    in bytes from [mf.map_base]; [polls] counts the reads of [stop_flag]. *)
Record loop_state := {
  remaining : Z;   (* size_t, in samples *)
  dst : Z;         (* uint32_t *, as a byte offset into the mapping *)
  written : Z;     (* size_t, in bytes *)
  overrun : Z;     (* int *)
  res : Z;         (* int *)
  polls : nat
}.

(** Why the loop condition became false, by the first conjunct that did. *)
Inductive stop_reason :=
| user_stop             (* stop_flag *)
| overrun_stop          (* overrun *)
| capacity_exhausted    (* !remaining *)
| source_error.         (* bladerf_sync_rx returned non-zero *)

(** One call of [bladerf_sync_rx]: the locals when it was made, the number
    of samples asked for and what came back. *)
Record rx_call := {
  rx_at : loop_state;
  rx_num : Z;
  rx_got : delivery
}.

Definition polled (st : loop_state) : loop_state :=
  {| remaining := remaining st; dst := dst st; written := written st;
     overrun := overrun st; res := res st; polls := S (polls st) |}.

(** The loop body, statistics apart: the display block reads [written] and
    the clock and assigns only [tv_next], [tv_last], [written_last] and the
    output streams, none of which the loop condition or the clean-up
    depends on. *)
Definition loop_body (st : loop_state) (d : delivery) : loop_state :=
  {| remaining := to_size_t (remaining st - d_actual d);
     dst := dst st + 4 * d_actual d;
     written := to_size_t (written st + to_uint (d_actual d * 4));
     overrun := to_int (Z.land (d_status d) BLADERF_META_STATUS_OVERRUN);
     res := res st;
     polls := polls st |}.

Definition with_res (r : Z) (st : loop_state) : loop_state :=
  {| remaining := remaining st; dst := dst st; written := written st;
     overrun := overrun st; res := r; polls := polls st |}.

(** The first three conjuncts of the loop condition,
    [!stop_flag && !overrun && remaining]: [None] when all hold, else the
    first one that fails. *)
Definition loop_guard (sig : option nat) (st : loop_state) : option stop_reason :=
  if stop_flag sig (polls st) then Some user_stop
  else if negb (overrun st =? 0) then Some overrun_stop
  else if remaining st =? 0 then Some capacity_exhausted
  else None.

(** [while (!stop_flag && !overrun && remaining &&
           !(res = bladerf_sync_rx(dev, dst, MIN(remaining, NUM_SAMPLES),
                                   &meta, TIMEOUT_MS))) body]
    run against the scripted deliveries [ds]. The result is the list of
    receive calls made, the locals when the loop was left, and the reason,
    [None] when the script ends while the loop asks for more. *)
Fixpoint rx_loop (sig : option nat) (ds : list delivery) (st : loop_state)
  : list rx_call * loop_state * option stop_reason :=
  match loop_guard sig st with
  | Some why => ([], polled st, Some why)
  | None =>
      match ds with
      | [] => ([], polled st, None)
      | d :: ds' =>
          let call := {| rx_at := polled st;
                         rx_num := MIN (remaining st) NUM_SAMPLES;
                         rx_got := d |} in
          let st1 := with_res (d_res d) (polled st) in
          if negb (d_res d =? 0) then ([call], st1, Some source_error)
          else
            let '(calls, st', why) := rx_loop sig ds' (loop_body st1 d) in
            (call :: calls, st', why)
      end
  end.

Definition rx_event (c : rx_call) : event :=
  ev_sync_rx (dst (rx_at c)) (rx_num c) (rx_got c).

(** ** [main] *)

(** How a run ends. *)
Inductive outcome :=
| Exited (code : Z)   (* main returned code *)
| Aborted             (* an assertion failed *)
| Undefined           (* an out-of-bounds read *)
| Pending.            (* still receiving when the scripted deliveries end *)

(** The status the parent process sees. *)
Definition exit_status (code : Z) : Z := Z.land code 255.

Definition usage : world -> world := emit ev_usage.

Definition call_dev (e : env) (c : dev_call) (w : world) : Z * world :=
  (dev_status e c, emit (ev_dev c (dev_status e c)) w).

(** From the label [cleanup:] to the end of [main]. *)
Definition cleanup (e : env) (m : mf) (logfile : bool) (written res : Z)
    (polls : nat) (w : world) : outcome * world :=
  match close_file e m written w with
  | None => (Aborted, w)
  | Some w =>
      let w := if logfile then emit ev_fclose w else w in
      let w := emit ev_bladerf_close w in
      let '(fv, suffix) := autoscale_float (float_of_Z written) in
      let w := emit (ev_wrote fv suffix written) w in
      (Exited (if (res =? 0) || stop_flag (signal_at e) polls then 0 else 1), w)
  end.

(** The initial values of the loop's locals. *)
Definition loop_init (m : mf) (r : Z) : loop_state :=
  {| remaining := map_size m / 4; dst := 0; written := 0; overrun := 0;
     res := r; polls := 0 |}.

(** From the loop to the label [cleanup:], then [cleanup]. *)
Definition receive (e : env) (m : mf) (logfile : bool) (r : Z) (w : world)
  : outcome * world :=
  let '(calls, st, why) := rx_loop (signal_at e) (deliveries e) (loop_init m r) in
  let w := {| fs := fs w; fds := fds w; next_fd := next_fd w;
              out := out w ++ (rx_event <$> calls) |} in
  match why with
  | None => (Pending, w)
  | Some _ =>
      let '(_, w) := call_dev e (bladerf_enable_module false) w in
      let w := emit ev_clear_line w in
      let w := if negb (overrun st =? 0) then emit (ev_stderr "OVERRUN OCCURRED!") w else w in
      cleanup e m logfile (written st) (res st) (polls st) w
  end.

(** From [bladerf_open] to the loop. *)
Definition device (e : env) (a : args) (m : mf) (logfile : bool) (w : world)
  : outcome * world :=
  let '(res, w) := call_dev e bladerf_open w in
  if negb (res =? 0) then (Exited (-1), emit (ev_stderr "Failed to open bladeRF") w)
  else
    let configure :=
      let '(res, w) := call_dev e (bladerf_set_frequency DEFAULT_FREQ) w in
      if negb (res =? 0) then (res, w)
      else
        let '(res, w) := call_dev e (bladerf_set_sample_rate DEFAULT_SAMPLERATE) w in
        if negb (res =? 0) then (res, w)
        else call_dev e (bladerf_set_bandwidth DEFAULT_BANDWIDTH) w in
    let '(res, w) := configure in
    if negb (res =? 0) then
      cleanup e m logfile 0 res 0 (emit (ev_stderr "Failed to configure bladeRF") w)
    else
      let '(res, w) :=
        call_dev e (bladerf_set_gain_mode (negb (manual_gain a =? INT_MIN))) w in
      if negb (res =? 0) then
        cleanup e m logfile 0 res 0 (emit (ev_stderr "Failed to set AGC") w)
      else
        let gain :=
          if negb (manual_gain a =? INT_MIN)
          then call_dev e (bladerf_set_gain (manual_gain a)) w
          else (res, w) in
        let '(res, w) := gain in
        if negb (res =? 0) then
          cleanup e m logfile 0 res 0 (emit (ev_stderr "Failed to set manual gain") w)
        else
          let '(res, w) :=
            call_dev e (bladerf_sync_config NUM_BUFFERS NUM_SAMPLES NUM_TRANSFERS
                          TIMEOUT_MS) w in
          if negb (res =? 0) then
            (Exited res, emit (ev_stderr "Failed to configure RX sync interface") w)
          else
            let '(res, w) := call_dev e (bladerf_enable_module true) w in
            if negb (res =? 0) then
              cleanup e m logfile 0 res 0 (emit (ev_stderr "Failed to enable RX") w)
            else
              receive e m logfile res
                (emit (ev_stderr "Receiving... Press Ctrl+C to abort.") w).

(** From [create_file] on, with [logfile] telling whether the log is open. *)
Definition capture (e : env) (a : args) (fn : string) (logfile : bool) (w : world)
  : outcome * world :=
  let '(r, m, w) := create_file e fn (max_size a) w in
  if negb (r =? 0) then (Exited (-1), w)
  else device e a m logfile (emit ev_sigaction (emit ev_sigaction w)).

Definition main (e : env) (opts : list getopt_opt) : outcome * world :=
  let w := init_world e in
  match getopt_loop opts args_init with
  | BadRead => (Undefined, w)
  | BadOption => (Exited 1, usage w)
  | Parsed a =>
      match fname a with
      | None => (Exited 1, usage w)
      | Some fn =>
          if max_size a =? 0 then (Exited 1, usage w)
          else
            match log_fname a with
            | Some path =>
                let '(ok, w) := Sys.fopen_wx (fopen_fails e) path w in
                if negb ok then (Exited (-1), perror "logfile fopen" w)
                else capture e a fn true w
            | None => capture e a fn false w
            end
      end
  end.

(** ** Notions used to state the properties *)

(** A delivery honours the request when a successful call reports at most
    the number of samples asked for. *)
Definition obeys (c : rx_call) : Prop :=
  d_res (rx_got c) = 0 -> 0 <= d_actual (rx_got c) <= rx_num c.

(** The loop invariant for a mapping of [max] bytes. *)
Definition loop_inv (max : Z) (st : loop_state) : Prop :=
  written st + 4 * remaining st = 4 * (max / 4) /\
  0 <= remaining st /\
  0 <= written st <= max /\
  dst st = written st.

(** The byte offsets at which the samples of one accepted delivery are
    stored, in the order they are stored. *)
Definition call_offsets (c : rx_call) : list Z :=
  if d_res (rx_got c) =? 0
  then (fun k => dst (rx_at c) + 4 * k) <$> seqZ 0 (d_actual (rx_got c))
  else [].

Definition stored_offsets (calls : list rx_call) : list Z :=
  concat (call_offsets <$> calls).

(** The message printed just before the receive loop. *)
Definition is_start_message (ev : event) : bool :=
  match ev with
  | ev_stderr msg => String.eqb msg "Receiving... Press Ctrl+C to abort."
  | _ => false
  end.

(** The run got as far as the receive loop. *)
Definition began_receiving (w : world) : Prop :=
  existsb is_start_message (out w) = true.

(** Calls into libbladeRF. *)
Definition is_dev_event (ev : event) : bool :=
  match ev with
  | ev_dev _ _ | ev_sync_rx _ _ _ | ev_bladerf_close => true
  | _ => false
  end.

(** The events of a trace that satisfy [p], in order. *)
Fixpoint select (p : event -> bool) (tr : list event) : list event :=
  match tr with
  | [] => []
  | ev :: tr' => if p ev then ev :: select p tr' else select p tr'
  end.

(** [close_file] is the only caller of [munmap]. *)
Definition is_munmap (ev : event) : bool :=
  match ev with ev_munmap _ => true | _ => false end.

Definition close_file_calls (tr : list event) : nat := length (select is_munmap tr).

Definition is_sync_rx (ev : event) : bool :=
  match ev with ev_sync_rx _ _ _ => true | _ => false end.

(** What the option loop guarantees about [max_size]. *)
Definition size_ok (n : Z) : Prop := is_size_t n /\ n mod 4 = 0.

(** ** Notions and scenarios used below *)

(** A [struct mf] as [create_file] leaves it on success, open on [fn]. *)
Definition mf_open (m : mf) (fn : string) (w : world) : Prop :=
  0 <= fd m /\ map_base m = Mapped 0 /\ fds w !! fd m = Some fn.

(** The size the final [ftruncate] leaves the artifact with. *)
Definition truncated (e : env) (fn : string) (written : Z) (files : gmap string Z)
  : gmap string Z :=
  if truncate_fails e || (to_off_t written <? 0) then files
  else <[fn := to_off_t written]> files.

(** What [close_file] appends to the trace: one [munmap], no receive call
    and no start message. *)
Definition finalizing (m : mf) (l : list event) : Prop :=
  select is_munmap l = [ev_munmap (map_size m)] /\
  select is_sync_rx l = [] /\
  existsb is_start_message l = false.

(** An environment in which every file operation and every set-up call
    succeeds, on an empty directory. *)
Definition quiet_env (ds : list delivery) (sig : option nat) : env :=
  {| fs0 := ∅; fopen_fails := false; open_fails := false; presize_fails := false;
     mmap_fails := false; msync_fails := false; truncate_fails := false;
     dev_status := fun _ => 0; deliveries := ds; signal_at := sig |}.

Definition block (n : Z) : delivery :=
  {| d_res := 0; d_actual := n; d_status := 0 |}.

Definition overrun_block (n : Z) : delivery :=
  {| d_res := 0; d_actual := n; d_status := BLADERF_META_STATUS_OVERRUN |}.

Definition failed_rx (r : Z) : delivery :=
  {| d_res := r; d_actual := 0; d_status := 0 |}.

(** [-f capture.iq -s 1M] *)
Definition cli_1M : list getopt_opt := [opt_f "capture.iq"; opt_s "1M"].

Definition mf_1M : mf := {| fd := 3; map_base := Mapped 0; map_size := 1000000 |}.

(** The second block, 40 samples after a first block of 60, reports an
    overrun. *)
Definition overrun_env : env := quiet_env [block 60; overrun_block 40] None.

(** [bladerf_sync_config] fails, everything else succeeds. *)
Definition sync_config_fails_env : env :=
  {| fs0 := ∅; fopen_fails := false; open_fails := false; presize_fails := false;
     mmap_fails := false; msync_fails := false; truncate_fails := false;
     dev_status := fun c => match c with bladerf_sync_config _ _ _ _ => -1 | _ => 0 end;
     deliveries := []; signal_at := None |}.

(** [bladerf_open] fails, everything else succeeds. *)
Definition open_fails_env : env :=
  {| fs0 := ∅; fopen_fails := false; open_fails := false; presize_fails := false;
     mmap_fails := false; msync_fails := false; truncate_fails := false;
     dev_status := fun c => match c with bladerf_open => -1 | _ => 0 end;
     deliveries := []; signal_at := None |}.

(** [bladerf_set_frequency] fails, everything else succeeds. *)
Definition set_frequency_fails_env : env :=
  {| fs0 := ∅; fopen_fails := false; open_fails := false; presize_fails := false;
     mmap_fails := false; msync_fails := false; truncate_fails := false;
     dev_status := fun c => match c with bladerf_set_frequency _ => -1 | _ => 0 end;
     deliveries := []; signal_at := None |}.

(** The target exists already. *)
Definition existing_target_env : env :=
  {| fs0 := {[ "capture.iq" := 4096 ]};
     fopen_fails := false; open_fails := false; presize_fails := false;
     mmap_fails := false; msync_fails := false; truncate_fails := false;
     dev_status := fun _ => 0; deliveries := []; signal_at := None |}.

(** The unit character of tier [k]: blank, kilo, mega, giga. *)
Definition unit_at (k : nat) : ascii :=
  match String.get k mult with
  | Some c => c
  | None => zero
  end.

Definition is_digit (c : ascii) : bool :=
  match Libc.digit_value c with
  | Some _ => true
  | None => false
  end.

Definition digit (c : ascii) : Z := Z.of_N (N_of_ascii c) - 48.

Fixpoint all_digits (s : string) : bool :=
  match s with
  | EmptyString => true
  | String c s' => is_digit c && all_digits s'
  end.

(** The number a string of decimal digits denotes. *)
Fixpoint decimal_value (s : string) : Z :=
  match s with
  | EmptyString => 0
  | String c s' => digit c * 10 ^ Z.of_nat (String.length s') + decimal_value s'
  end.

Definition is_opt_s (o : getopt_opt) : bool :=
  match o with opt_s _ => true | _ => false end.

(** [cli_1M] as the option loop leaves it. *)
Definition args_1M : args :=
  {| fname := Some "capture.iq"; log_fname := None;
     max_size := 1000000; manual_gain := INT_MIN |}.

(** One delivery fills the whole megabyte. *)
Definition capacity_env : env := quiet_env [block 250000] None.

Definition capacity_run : list rx_call * loop_state * option stop_reason :=
  Eval vm_compute in rx_loop None [block 250000] (loop_init mf_1M 0).

(** Ten samples, then [bladerf_sync_rx] fails. *)
Definition source_error_env : env := quiet_env [block 10; failed_rx (-1)] None.

Definition source_error_run : list rx_call * loop_state * option stop_reason :=
  Eval vm_compute in rx_loop None [block 10; failed_rx (-1)] (loop_init mf_1M 0).

Definition overrun_run : list rx_call * loop_state * option stop_reason :=
  Eval vm_compute in rx_loop None [block 60; overrun_block 40] (loop_init mf_1M 0).

(** ** Further notions *)

Definition is_msync (ev : event) : bool :=
  match ev with ev_msync _ _ => true | _ => false end.

(** A successful delivery brings at least one sample. *)
Definition progresses (c : rx_call) : Prop :=
  d_res (rx_got c) = 0 -> 1 <= d_actual (rx_got c).

(** The number of samples the accepted deliveries brought. *)
Fixpoint samples_received (calls : list rx_call) : Z :=
  match calls with
  | [] => 0
  | c :: calls' =>
      (if d_res (rx_got c) =? 0 then d_actual (rx_got c) else 0)
      + samples_received calls'
  end.

(** ** The statistics display

    The block under [/* show stats */] in the loop body, with its locals
    [tv_last], [tv_next] and [written_last]. Clock values are far from the
    limits of [time_t], so the additions below do not overflow. *)

(** [struct timeval] *)
Record timeval := {
  tv_sec : Z;
  tv_usec : Z
}.

(** [timercmp(a, b, >=)] *)
Definition timercmp_ge (a b : timeval) : bool :=
  if tv_sec a =? tv_sec b then tv_usec b <=? tv_usec a else tv_sec b <=? tv_sec a.

(** [timeradd(a, b, &result)] *)
Definition timeradd (a b : timeval) : timeval :=
  let sec := tv_sec a + tv_sec b in
  let usec := tv_usec a + tv_usec b in
  if 1000000 <=? usec then {| tv_sec := sec + 1; tv_usec := usec - 1000000 |}
  else {| tv_sec := sec; tv_usec := usec |}.

(** [timersub(a, b, &result)] *)
Definition timersub (a b : timeval) : timeval :=
  let sec := tv_sec a - tv_sec b in
  let usec := tv_usec a - tv_usec b in
  if usec <? 0 then {| tv_sec := sec - 1; tv_usec := usec + 1000000 |}
  else {| tv_sec := sec; tv_usec := usec |}.

(** The local [tv_sec = {.tv_sec=1}] of [main]. *)
Definition one_second : timeval := {| tv_sec := 1; tv_usec := 0 |}.

Record stats_state := {
  tv_last : timeval;
  tv_next : timeval;
  written_last : Z
}.

(** [tv_last = {0}], [tv_next = {0}], [written_last = 0]. *)
Definition stats_init : stats_state :=
  {| tv_last := {| tv_sec := 0; tv_usec := 0 |};
     tv_next := {| tv_sec := 0; tv_usec := 0 |};
     written_last := 0 |}.

(** Operations on [float]. *)
Definition float_add : spec_float -> spec_float -> spec_float := SFadd 24 128.
Definition float_div : spec_float -> spec_float -> spec_float := SFdiv 24 128.

(** What the block prints: the line on the terminal with its two scaled
    values and units, and the line of the log file. *)
Inductive stats_output :=
| stats_line (datarate : spec_float) (suffix : ascii) (fv : spec_float) (suffix2 : ascii)
| log_line (sec usec samples : Z).

(** [float delta_t = (float)tmp.tv_usec / 1000000.0; delta_t += tmp.tv_sec;] *)
Definition delta_t_of (tmp : timeval) : spec_float :=
  float_add
    (to_float (double_div (to_double (float_of_Z (tv_usec tmp))) (double_of_Z 1000000)))
    (float_of_Z (tv_sec tmp)).

(** [float datarate = written - written_last; datarate /= delta_t;] *)
Definition datarate_of (written written_last : Z) (delta_t : spec_float) : spec_float :=
  float_div (float_of_Z (to_size_t (written - written_last))) delta_t.

(** One pass through the block with the clock at [tv_now]; [logfile] tells
    whether the log is open. *)
Definition show_stats (logfile : bool) (tv_now : timeval) (written : Z) (s : stats_state)
  : stats_state * list stats_output :=
  if timercmp_ge tv_now (tv_next s) then
    let tv_next' := timeradd tv_now one_second in
    let printed :=
      if negb (tv_sec (tv_last s) =? 0) then
        let tmp := timersub tv_now (tv_last s) in
        let '(datarate, suffix) :=
          autoscale_float (datarate_of written (written_last s) (delta_t_of tmp)) in
        let '(fv, suffix2) := autoscale_float (float_of_Z written) in
        stats_line datarate suffix fv suffix2
        :: (if logfile
            then [log_line (tv_sec tv_now) (tv_usec tv_now) (Z.shiftr written 2)]
            else [])
      else [] in
    ({| tv_last := tv_now; tv_next := tv_next'; written_last := written |}, printed)
  else (s, []).

(** The block over the passes of a run, each given by the clock reading
    and the value of [written] at that pass. *)
Fixpoint stats_run (logfile : bool) (obs : list (timeval * Z)) (s : stats_state)
  : stats_state * list stats_output :=
  match obs with
  | [] => (s, [])
  | (tv_now, written) :: obs' =>
      let '(s1, printed) := show_stats logfile tv_now written s in
      let '(s2, printed') := stats_run logfile obs' s1 in
      (s2, printed ++ printed')
  end.

(** [written] after the body has run on an accepted delivery. *)
Definition written_after (c : rx_call) : Z :=
  written (loop_body (rx_at c) (rx_got c)).

(** The passes of a run of the loop: one per accepted delivery, with the
    clock readings [gettimeofday] returned in turn. *)
Fixpoint observations (clock : list timeval) (calls : list rx_call)
  : list (timeval * Z) :=
  match calls with
  | [] => []
  | c :: calls' =>
      if d_res (rx_got c) =? 0 then
        match clock with
        | tv_now :: clock' => (tv_now, written_after c) :: observations clock' calls'
        | [] => []
        end
      else observations clock calls'
  end.

(** A clock reading: a time after the first second of 1970 in normal form. *)
Definition clock_ok (t : timeval) : Prop :=
  1 <= tv_sec t /\ 0 <= tv_usec t < 1000000.

Definition micros (t : timeval) : Z := tv_sec t * 1000000 + tv_usec t.

(** The times, in microseconds, of the lines written to the log. *)
Fixpoint log_times (l : list stats_output) : list Z :=
  match l with
  | [] => []
  | log_line sec usec _ :: l' => (sec * 1000000 + usec) :: log_times l'
  | stats_line _ _ _ _ :: l' => log_times l'
  end.

(** The sample counts written to the log. *)
Fixpoint log_samples (l : list stats_output) : list Z :=
  match l with
  | [] => []
  | log_line _ _ n :: l' => n :: log_samples l'
  | stats_line _ _ _ _ :: l' => log_samples l'
  end.

Definition is_opt_f (o : getopt_opt) : bool :=
  match o with opt_f _ => true | _ => false end.

(** The gap of one second between two log lines. *)
Definition second_apart (a b : Z) : Prop := a + 1000000 <= b.

(** The states of the display block after at least one sample was taken
    at a proper clock reading, or before any. *)
Definition stats_reached (s : stats_state) : Prop :=
  s = stats_init \/
  (tv_next s = timeradd (tv_last s) one_second /\ clock_ok (tv_last s)).

(** The four messages printed in front of [goto cleanup]. *)
Definition is_cleanup_message (ev : event) : bool :=
  match ev with
  | ev_stderr msg =>
      String.eqb msg "Failed to configure bladeRF"
      || String.eqb msg "Failed to set AGC"
      || String.eqb msg "Failed to set manual gain"
      || String.eqb msg "Failed to enable RX"
  | _ => false
  end.

(** A set-up step failed and the run jumped to [cleanup]. *)
Definition failed_setup (w : world) : Prop :=
  existsb is_cleanup_message (out w) = true.


(** What is printed and called from the end of the loop on. *)
Definition is_shutdown_event (ev : event) : bool :=
  match ev with
  | ev_perror _ | ev_msync _ _ | ev_ftruncate _ _ _ | ev_munmap _ | ev_close _
  | ev_clear_line | ev_fclose | ev_bladerf_close | ev_wrote _ _ _ => true
  | ev_dev (bladerf_enable_module false) _ => true
  | ev_stderr msg => String.eqb msg "OVERRUN OCCURRED!"
  | _ => false
  end.



(** ** Further scenarios *)

(** The world after [create_file] has made the megabyte of [cli_1M]. *)
Definition mapped_world : world :=
  snd (create_file (quiet_env [] None) "capture.iq" 1000000
         (init_world (quiet_env [] None))).

(** A store of four samples. *)
Definition mf_16 : mf := {| fd := 3; map_base := Mapped 0; map_size := 16 |}.

(** Four deliveries of one sample each fill it. *)
Definition single_samples_run : list rx_call * loop_state * option stop_reason :=
  Eval vm_compute in rx_loop None [block 1; block 1; block 1; block 1] (loop_init mf_16 0).

(** The signal arrives after the first delivery. *)
Definition signal_run : list rx_call * loop_state * option stop_reason :=
  Eval vm_compute in rx_loop (Some 1%nat) [block 1; block 1] (loop_init mf_16 0).

(** Clock readings around the second 100 of the epoch. *)
Definition clock_at (sec usec : Z) : timeval := {| tv_sec := sec; tv_usec := usec |}.

Definition four_passes : list (timeval * Z) :=
  [(clock_at 100 500000, 400); (clock_at 101 0, 800);
   (clock_at 101 900000, 1200); (clock_at 102 100000, 1600)].

(** [-f capture.iq -s 1M -s 2G -g 30] *)
Definition cli_two_sizes : list getopt_opt :=
  [opt_f "capture.iq"; opt_s "1M"; opt_s "2G"; opt_g "30"].

Definition args_two_sizes : args :=
  {| fname := Some "capture.iq"; log_fname := None;
     max_size := 2000000000; manual_gain := 30 |}.

(** [-f first.iq -f capture.iq -s 1M] *)
Definition cli_two_names : list getopt_opt :=
  [opt_f "first.iq"; opt_f "capture.iq"; opt_s "1M"].



(** [-f capture.iq -s 1M -l capture.log] *)
Definition cli_logged : list getopt_opt :=
  [opt_f "capture.iq"; opt_s "1M"; opt_l "capture.log"].

Definition args_logged : args :=
  {| fname := Some "capture.iq"; log_fname := Some "capture.log";
     max_size := 1000000; manual_gain := INT_MIN |}.

(** The log exists already. *)
Definition existing_log_env : env :=
  {| fs0 := {[ "capture.log" := 10 ]};
     fopen_fails := false; open_fails := false; presize_fails := false;
     mmap_fails := false; msync_fails := false; truncate_fails := false;
     dev_status := fun _ => 0; deliveries := []; signal_at := None |}.

(** [-f capture.iq -s 1M -l capture.iq] *)
Definition cli_same_path : list getopt_opt :=
  [opt_f "capture.iq"; opt_s "1M"; opt_l "capture.iq"].

Definition args_same_path : args :=
  {| fname := Some "capture.iq"; log_fname := Some "capture.iq";
     max_size := 1000000; manual_gain := INT_MIN |}.

(** ** The receive loop: unfolding and invariants *)

Lemma rx_loop_unfold sig ds st :
  rx_loop sig ds st =
  match loop_guard sig st with
  | Some why => ([], polled st, Some why)
  | None =>
      match ds with
      | [] => ([], polled st, None)
      | d :: ds' =>
          let call := {| rx_at := polled st;
                         rx_num := MIN (remaining st) NUM_SAMPLES;
                         rx_got := d |} in
          let st1 := with_res (d_res d) (polled st) in
          if negb (d_res d =? 0) then ([call], st1, Some source_error)
          else
            let '(calls, st', why) := rx_loop sig ds' (loop_body st1 d) in
            (call :: calls, st', why)
      end
  end.
Proof. destruct ds; reflexivity. Qed.

Lemma loop_guard_None sig st :
  loop_guard sig st = None ->
  stop_flag sig (polls st) = false /\ overrun st = 0 /\ remaining st <> 0.
Proof.
  unfold loop_guard.
  destruct (stop_flag sig (polls st)); [discriminate|].
  destruct (Z.eqb_spec (overrun st) 0); simpl; [|discriminate].
  destruct (Z.eqb_spec (remaining st) 0); [discriminate|]. auto.
Qed.

Lemma MIN_le_l a b : MIN a b <= a.
Proof. unfold MIN. destruct (Z.leb_spec a b); lia. Qed.

Lemma MIN_le_r a b : MIN a b <= b.
Proof. unfold MIN. destruct (Z.leb_spec a b); lia. Qed.

Lemma to_size_t_id x : is_size_t x -> to_size_t x = x.
Proof.
  unfold is_size_t, SIZE_MAX, to_size_t, to_unsigned. intros.
  apply Z.mod_small. lia.
Qed.

Lemma to_uint_id x : 0 <= x < 2 ^ 32 -> to_uint x = x.
Proof. unfold to_uint, to_unsigned. intros. apply Z.mod_small. lia. Qed.

(** One accepted delivery that honours the request keeps the invariant and
    moves the counters by exactly its sample count. *)
Lemma loop_body_inv max st r d :
  is_size_t max ->
  loop_inv max st ->
  0 <= d_actual d <= MIN (remaining st) NUM_SAMPLES ->
  loop_inv max (loop_body (with_res r (polled st)) d) /\
  remaining (loop_body (with_res r (polled st)) d) = remaining st - d_actual d /\
  written (loop_body (with_res r (polled st)) d) = written st + 4 * d_actual d.
Proof.
  intros Hmax (Hsum & Hrem & Hw & Hdst) Ha.
  pose proof (MIN_le_l (remaining st) NUM_SAMPLES).
  pose proof (MIN_le_r (remaining st) NUM_SAMPLES).
  assert (Hq : 4 * (max / 4) <= max) by (apply Z.mul_div_le; lia).
  unfold NUM_SAMPLES in *. unfold is_size_t, SIZE_MAX in Hmax.
  assert (Hr : to_size_t (remaining st - d_actual d) = remaining st - d_actual d).
  { apply to_size_t_id. unfold is_size_t, SIZE_MAX. lia. }
  assert (Hu : to_uint (d_actual d * 4) = 4 * d_actual d).
  { rewrite to_uint_id; lia. }
  assert (Hwr : to_size_t (written st + to_uint (d_actual d * 4))
                = written st + 4 * d_actual d).
  { rewrite Hu. apply to_size_t_id. unfold is_size_t, SIZE_MAX. lia. }
  unfold loop_inv, loop_body; simpl. rewrite Hr, Hwr. lia.
Qed.

Lemma loop_inv_polled max st : loop_inv max (polled st) <-> loop_inv max st.
Proof. reflexivity. Qed.

Lemma loop_inv_with_res max r st : loop_inv max (with_res r st) <-> loop_inv max st.
Proof. reflexivity. Qed.

Lemma fmap_offsets (s a : Z) :
  (fun k => 4 * s + 4 * k) <$> seqZ 0 a = (fun k => 4 * k) <$> seqZ s a.
Proof.
  replace (seqZ s a) with (Z.add s <$> seqZ 0 a)
    by (rewrite fmap_add_seqZ; f_equal; lia).
  rewrite <- list_fmap_compose.
  apply list_fmap_ext. intros _ k _. simpl. lia.
Qed.

(** What a whole run of the loop keeps, when every delivery honours its
    request: the invariant at every call and at the end, no call reports
    more than what remains or runs over the end of the mapping, and the
    samples are stored one after the other. *)
Lemma rx_loop_inv max sig ds :
  forall st calls st' why,
    is_size_t max ->
    loop_inv max st ->
    rx_loop sig ds st = (calls, st', why) ->
    Forall obeys calls ->
    Forall (fun c => loop_inv max (rx_at c)) calls /\
    loop_inv max st' /\
    Forall (fun c => d_res (rx_got c) = 0 ->
                     d_actual (rx_got c) <= remaining (rx_at c) /\
                     dst (rx_at c) + 4 * d_actual (rx_got c) <= max) calls /\
    remaining st' <= remaining st /\
    stored_offsets calls
    = (fun k => 4 * k) <$> seqZ (max / 4 - remaining st) (remaining st - remaining st').
Proof.
  induction ds as [|d ds IH]; intros st calls st' why Hmax Hinv Hrun Hob;
    rewrite rx_loop_unfold in Hrun;
    destruct (loop_guard sig st) eqn:Hg;
    try (injection Hrun as <- <- <-; simpl;
         rewrite Z.sub_diag, seqZ_nil by lia; auto using Forall_nil with lia).
  cbv zeta in Hrun.
  destruct (Z.eqb_spec (d_res d) 0) as [Hres|Hres]; simpl in Hrun.
  - destruct (rx_loop sig ds (loop_body (with_res (d_res d) (polled st)) d))
      as [[calls' st''] why'] eqn:Hrec.
    injection Hrun as <- <- <-.
    apply Forall_cons in Hob as [Hc Hob]. unfold obeys in Hc; simpl in Hc.
    specialize (Hc Hres).
    destruct (loop_body_inv max st (d_res d) d Hmax Hinv Hc) as (Hinv' & Hrem & Hwr).
    destruct (IH _ _ _ _ Hmax Hinv' Hrec Hob) as (Hall & Hend & Hsafe & Hle & Hoff).
    pose proof (MIN_le_l (remaining st) NUM_SAMPLES) as Hmin.
    destruct Hinv as (Hsum & Hrem0 & Hw & Hdst).
    assert (Hq : 4 * (max / 4) <= max) by (apply Z.mul_div_le; lia).
    split_and!.
    + constructor; [simpl; unfold loop_inv; simpl; lia | exact Hall].
    + exact Hend.
    + constructor; [simpl; intros _; lia | exact Hsafe].
    + lia.
    + unfold stored_offsets in *. rewrite fmap_cons. simpl concat.
      rewrite Hoff, Hrem. unfold call_offsets; simpl.
      destruct (Z.eqb_spec (d_res d) 0); [|contradiction].
      replace (dst st) with (4 * (max / 4 - remaining st)) by lia.
      rewrite fmap_offsets, <- fmap_app.
      replace (remaining st - remaining st'')
        with (d_actual d + (remaining st - d_actual d - remaining st'')) by lia.
      rewrite seqZ_app by lia. do 3 f_equal. lia.
  - injection Hrun as <- <- <-.
    split_and!.
    + constructor; [exact Hinv | constructor].
    + exact Hinv.
    + constructor; [simpl; intros; contradiction | constructor].
    + simpl; lia.
    + unfold stored_offsets, call_offsets; simpl.
      destruct (Z.eqb_spec (d_res d) 0); [contradiction|].
      simpl. rewrite Z.sub_diag, seqZ_nil by lia. reflexivity.
Qed.

Lemma loop_init_inv m r : is_size_t (map_size m) -> loop_inv (map_size m) (loop_init m r).
Proof.
  unfold is_size_t, SIZE_MAX, loop_inv, loop_init; simpl. intros.
  assert (0 <= map_size m / 4) by (apply Z.div_pos; lia). lia.
Qed.

Lemma sorted_sample_offsets (n : nat) :
  forall s, StronglySorted Z.lt ((fun k => 4 * k) <$> seqZ s (Z.of_nat n)).
Proof.
  induction n as [|n IH]; intros s.
  - rewrite seqZ_nil by lia. constructor.
  - rewrite seqZ_cons by lia. rewrite fmap_cons.
    replace (Z.pred (Z.of_nat (S n))) with (Z.of_nat n) by lia.
    constructor; [apply IH|].
    rewrite Forall_fmap, Forall_seqZ. intros k Hk. simpl. lia.
Qed.

(** C6: while every delivery reports at most the number of samples asked
    for, [written + 4 * remaining] keeps the value it had on entry at every
    receive call and when the loop is left, [written] and the write cursor
    [dst] (which coincide) never exceed the size of the mapping, and the
    samples are stored at strictly increasing offsets in delivery order:
    the stored offsets are exactly 0, 4, 8, ... up to [written]. *)
Theorem rx_loop_cursor_invariant sig ds m r calls st why :
  is_size_t (map_size m) ->
  rx_loop sig ds (loop_init m r) = (calls, st, why) ->
  Forall obeys calls ->
  Forall (fun c =>
            written (rx_at c) + 4 * remaining (rx_at c) = 4 * (map_size m / 4) /\
            written (rx_at c) <= map_size m /\
            dst (rx_at c) <= map_size m) calls /\
  written st + 4 * remaining st = 4 * (map_size m / 4) /\
  written st <= map_size m /\
  dst st <= map_size m /\
  stored_offsets calls = (fun k => 4 * k) <$> seqZ 0 (written st / 4) /\
  StronglySorted Z.lt (stored_offsets calls).
Proof.
  intros Hmax Hrun Hob.
  destruct (rx_loop_inv _ _ _ _ _ _ _ Hmax (loop_init_inv m r Hmax) Hrun Hob)
    as (Hall & Hend & _ & Hle & Hoff).
  assert (Hst : stored_offsets calls = (fun k => 4 * k) <$> seqZ 0 (written st / 4)).
  { rewrite Hoff. destruct Hend as (Hsum & Hrem & Hw & Hdst). simpl.
    rewrite Z.sub_diag. f_equal. f_equal.
    replace (written st) with ((map_size m / 4 - remaining st) * 4) by lia.
    rewrite Z.div_mul; lia. }
  split_and!.
  - eapply Forall_impl; [exact Hall|]. unfold loop_inv. intros c ?. lia.
  - unfold loop_inv in Hend. lia.
  - unfold loop_inv in Hend. lia.
  - unfold loop_inv in Hend. lia.
  - exact Hst.
  - rewrite Hst.
    destruct Hend as (Hsum & Hrem & Hw & Hdst).
    assert (0 <= written st / 4) by (apply Z.div_pos; lia).
    rewrite <- (Z2Nat.id (written st / 4)) by lia.
    apply sorted_sample_offsets.
Qed.

(** C9: the loop is safe exactly as far as the deliveries are. If every
    successful call reports at most the [MIN(remaining, NUM_SAMPLES)]
    samples it asked for, no call reports more than [remaining] (the
    subtraction does not wrap) and [dst] stays inside the mapping. The loop
    itself does not look at [actual_count]: a delivery of one sample too
    many is accepted, [remaining] wraps to [SIZE_MAX] and [dst] points
    behind the mapping. *)
Theorem rx_loop_safe_iff_deliveries_obey :
  (forall sig ds m r calls st why,
      is_size_t (map_size m) ->
      rx_loop sig ds (loop_init m r) = (calls, st, why) ->
      Forall obeys calls ->
      Forall (fun c => d_res (rx_got c) = 0 ->
                       rx_num c = MIN (remaining (rx_at c)) NUM_SAMPLES /\
                       d_actual (rx_got c) <= remaining (rx_at c) /\
                       dst (rx_at c) + 4 * d_actual (rx_got c) <= map_size m) calls /\
      0 <= remaining st /\ dst st <= map_size m) /\
  (let m := {| fd := 3; map_base := Mapped 0; map_size := 1000000 |} in
   let d := {| d_res := 0; d_actual := 250001; d_status := 0 |} in
   exists call st,
     rx_loop None [d] (loop_init m 0) = ([call], st, None) /\
     rx_num call = 250000 /\ ~ obeys call /\
     remaining st = SIZE_MAX /\ dst st = 1000004 /\ map_size m < dst st).
Proof.
  split.
  - intros sig ds m r calls st why Hmax Hrun Hob.
    destruct (rx_loop_inv _ _ _ _ _ _ _ Hmax (loop_init_inv m r Hmax) Hrun Hob)
      as (_ & Hend & Hsafe & _ & _).
    split_and!.
    + assert (Hnum : Forall (fun c => rx_num c = MIN (remaining (rx_at c)) NUM_SAMPLES) calls).
      { clear -Hrun. revert Hrun. generalize (loop_init m r). revert calls st why.
        induction ds as [|d ds IH]; intros calls st why st0 Hrun;
          rewrite rx_loop_unfold in Hrun; destruct (loop_guard sig st0);
          try (injection Hrun as <- <- <-; constructor).
        cbv zeta in Hrun. destruct (negb (d_res d =? 0)).
        - injection Hrun as <- <- <-. repeat constructor.
        - destruct (rx_loop sig ds _) as [[calls' st''] why'] eqn:Hrec.
          injection Hrun as <- <- <-. constructor; [reflexivity|].
          eapply IH. exact Hrec. }
      rewrite Forall_forall in Hsafe, Hnum. rewrite Forall_forall.
      intros c Hc Hres. split; [exact (Hnum c Hc) | exact (Hsafe c Hc Hres)].
    + unfold loop_inv in Hend. lia.
    + unfold loop_inv in Hend. lia.
  - eexists _, _. split; [reflexivity|].
    split; [reflexivity|]. split; [|split; [reflexivity | split; [reflexivity | simpl; lia]]].
    unfold obeys; simpl. intros H. specialize (H eq_refl).
    vm_compute in H. destruct H as [_ H]. apply H. reflexivity.
Qed.

(** ** The command line *)

Lemma parse_fsize_size_ok arg n : parse_fsize arg = Some n -> size_ok n.
Proof.
  unfold parse_fsize. destruct (last_char arg) as [c|]; [|discriminate].
  intros [= <-]. unfold size_ok, is_size_t, SIZE_MAX, to_size_t, to_unsigned.
  split.
  - pose proof (Z.mod_pos_bound (Libc.strtoull arg * suffix_mult c) (2 ^ 64)). lia.
  - rewrite Z.mod_mod_divide by (exists (2 ^ 62); reflexivity).
    assert (Hm : exists k, suffix_mult c = k * 4).
    { unfold suffix_mult. repeat case_match;
        [exists 250000 | exists 250000000 | exists 250000000000 | exists 0]; reflexivity. }
    destruct Hm as [k ->]. rewrite Z.mul_assoc. apply Z_mod_mult.
Qed.

Lemma getopt_loop_size_ok opts :
  forall a a', size_ok (max_size a) -> getopt_loop opts a = Parsed a' ->
               size_ok (max_size a').
Proof.
  induction opts as [|o opts IH]; intros a a' Hok Hrun; simpl in Hrun.
  - injection Hrun as <-. exact Hok.
  - destruct o as [s|s|s|s|]; try (eapply IH; [|exact Hrun]; exact Hok).
    + destruct (parse_fsize s) as [n|] eqn:Hn; [|discriminate].
      eapply IH; [|exact Hrun]. simpl. eapply parse_fsize_size_ok, Hn.
    + discriminate.
Qed.

Lemma args_init_size_ok : size_ok (max_size args_init).
Proof. unfold size_ok, is_size_t, SIZE_MAX. simpl. split; [lia | reflexivity]. Qed.

Lemma getopt_loop_app pre :
  forall rest a,
    getopt_loop (pre ++ rest) a =
    match getopt_loop pre a with
    | Parsed a' => getopt_loop rest a'
    | r => r
    end.
Proof.
  induction pre as [|o pre IH]; intros rest a; simpl; [reflexivity|].
  destruct o; try apply IH; [|reflexivity].
  destruct (parse_fsize optarg); [apply IH | reflexivity].
Qed.

(** ** Traces *)

Lemma select_app p tr1 tr2 : select p (tr1 ++ tr2) = select p tr1 ++ select p tr2.
Proof.
  induction tr1 as [|ev tr1 IH]; simpl; [reflexivity|].
  destruct (p ev); simpl; congruence.
Qed.

Lemma select_rx_events calls : select is_sync_rx (rx_event <$> calls) = rx_event <$> calls.
Proof. induction calls as [|c calls IH]; csimpl; [reflexivity|]. by rewrite IH. Qed.

Lemma select_munmap_rx_events calls : select is_munmap (rx_event <$> calls) = [].
Proof. induction calls as [|c calls IH]; csimpl; [reflexivity|]. exact IH. Qed.

Lemma select_rx_start calls : existsb is_start_message (rx_event <$> calls) = false.
Proof. induction calls as [|c calls IH]; csimpl; [reflexivity|]. exact IH. Qed.

(** Normalizes what hypotheses and goal say about the start message on a
    trace built by appending events, and closes the goal if that settles
    it. *)
Ltac trace_norm :=
  unfold began_receiving, perror, usage, emit in *;
  cbn [out fs fds next_fd] in *;
  rewrite ?existsb_app in *;
  cbn [existsb is_start_message String.eqb Ascii.eqb Bool.eqb orb app init_world out] in *;
  rewrite ?orb_false_r in *.

Ltac trace_solver := trace_norm; first [done | auto].

(** ** [close_file] and the clean-up *)

Lemma close_file_spec e m wr w fn :
  mf_open m fn w ->
  exists w' l,
    close_file e m wr w = Some w' /\
    out w' = out w ++ l /\ finalizing m l /\
    fs w' = truncated e fn wr (fs w).
Proof.
  intros (Hfd & Hbase & Hfds).
  unfold truncated, finalizing, close_file.
  destruct (Z.leb_spec 0 (fd m)) as [_|]; [cbn [negb] | lia]. rewrite Hbase.
  destruct (0 <? wr) eqn:H1, (msync_fails e) eqn:H2, (truncate_fails e) eqn:H3,
    (to_off_t wr <? 0) eqn:H4;
    unfold Sys.msync, Sys.ftruncate, Sys.munmap, Sys.close, perror;
    cbn -[to_off_t]; rewrite ?Hfds, ?H4; cbn -[to_off_t];
    (eexists _, _; split; [reflexivity|]);
    cbn [out fs emit]; rewrite <- ?app_assoc;
    (split; [reflexivity|]); (split; [|reflexivity]);
    split_and!; reflexivity.
Qed.

Lemma cleanup_spec e m logfile wr r p w fn :
  mf_open m fn w ->
  exists w' l,
    cleanup e m logfile wr r p w
    = (Exited (if (r =? 0) || stop_flag (signal_at e) p then 0 else 1), w') /\
    out w' = out w ++ l /\ finalizing m l /\
    fs w' = truncated e fn wr (fs w).
Proof.
  intros Hopen.
  destruct (close_file_spec e m wr w fn Hopen) as (w1 & l & Hc & Hout & (Hm & Hrx & Hst) & Hfs).
  unfold cleanup. rewrite Hc.
  destruct (autoscale_float (float_of_Z wr)) as [fv suffix].
  destruct logfile; unfold emit; cbn [out fs fds next_fd];
    (eexists _, _; split; [reflexivity|]);
    cbn [out fs]; rewrite Hout, <- ?app_assoc;
    (split; [reflexivity|]); (split; [|exact Hfs]);
    unfold finalizing; rewrite !select_app, existsb_app, Hm, Hrx, Hst;
    split_and!; reflexivity.
Qed.

(** ** How the loop ends *)

(** [res] is zero when the loop is left, unless a receive call failed. *)
Lemma rx_loop_res sig ds :
  forall st calls st' why,
    res st = 0 ->
    rx_loop sig ds st = (calls, st', Some why) ->
    (why = source_error /\ res st' <> 0) \/ (why <> source_error /\ res st' = 0).
Proof.
  induction ds as [|d ds IH]; intros st calls st' why Hres Hrun;
    rewrite rx_loop_unfold in Hrun;
    destruct (loop_guard sig st) as [why0|] eqn:Hg;
    try (injection Hrun as <- <- <-; right; split; [|exact Hres];
         unfold loop_guard in Hg; repeat case_match; congruence);
    try discriminate.
  cbv zeta in Hrun.
  destruct (Z.eqb_spec (d_res d) 0) as [Hd|Hd]; simpl in Hrun.
  - destruct (rx_loop sig ds _) as [[calls' st''] why'] eqn:Hrec.
    injection Hrun as <- <- ->. eapply IH; [|exact Hrec]. simpl. exact Hd.
  - injection Hrun as <- <- <-. left. split; [reflexivity | exact Hd].
Qed.

Lemma overrun_bit status :
  Z.land status BLADERF_META_STATUS_OVERRUN <> 0 ->
  to_int (Z.land status BLADERF_META_STATUS_OVERRUN) = 1.
Proof.
  change BLADERF_META_STATUS_OVERRUN with (Z.ones 1).
  rewrite Z.land_ones by lia. change (2 ^ 1) with 2.
  intros H. pose proof (Z.mod_pos_bound status 2).
  replace (status mod 2) with 1 by lia. reflexivity.
Qed.

(** A delivery that reports an overrun is the last one: its samples are
    counted and the condition fails at the next evaluation. *)
Lemma rx_loop_overrun sig ds :
  forall st calls st' why pre c post,
    rx_loop sig ds st = (calls, st', why) ->
    calls = pre ++ c :: post ->
    d_res (rx_got c) = 0 ->
    Z.land (d_status (rx_got c)) BLADERF_META_STATUS_OVERRUN <> 0 ->
    post = [] /\
    st' = polled (loop_body (with_res 0 (rx_at c)) (rx_got c)) /\
    (why = Some user_stop \/ why = Some overrun_stop) /\
    overrun st' = 1.
Proof.
  induction ds as [|d ds IH]; intros st calls st' why pre c post Hrun Hcalls Hres Hov;
    rewrite rx_loop_unfold in Hrun;
    destruct (loop_guard sig st) as [why0|] eqn:Hg;
    try (injection Hrun as <- <- <-; destruct pre; discriminate).
  cbv zeta in Hrun.
  destruct (Z.eqb_spec (d_res d) 0) as [Hd|Hd]; simpl in Hrun.
  - destruct (rx_loop sig ds _) as [[calls' st''] why'] eqn:Hrec.
    injection Hrun as <- <- <-.
    destruct pre as [|c0 pre]; simpl in Hcalls.
    + injection Hcalls as <- <-. simpl in *.
      rewrite rx_loop_unfold in Hrec.
      pose proof (overrun_bit _ Hov) as Hbit.
      unfold loop_guard in Hrec. simpl in Hrec. rewrite Hbit in Hrec. simpl in Hrec.
      rewrite Hd in *.
      destruct (stop_flag sig (S (polls st))); injection Hrec as <- <- <-;
        (split_and!; [reflexivity | reflexivity | auto | exact Hbit]).
    + injection Hcalls as <- Hcalls.
      eapply IH; eauto.
  - injection Hrun as <- <- <-.
    destruct pre as [|c0 pre]; simpl in Hcalls.
    + injection Hcalls as <- <-. simpl in Hres. contradiction.
    + injection Hcalls as _ Hcalls. destruct pre; discriminate.
Qed.

(** ** From the loop to the exit *)

Lemma receive_spec e m logfile w0 fn calls st why :
  mf_open m fn w0 ->
  rx_loop (signal_at e) (deliveries e) (loop_init m 0) = (calls, st, Some why) ->
  exists w',
    receive e m logfile 0 w0
    = (Exited (if (res st =? 0) || stop_flag (signal_at e) (polls st) then 0 else 1), w') /\
    fs w' = truncated e fn (written st) (fs w0) /\
    (overrun st <> 0 -> ev_stderr "OVERRUN OCCURRED!" ∈ out w') /\
    select is_sync_rx (out w') = select is_sync_rx (out w0) ++ (rx_event <$> calls) /\
    close_file_calls (out w') = S (close_file_calls (out w0)).
Proof.
  intros Hopen Hrun. unfold receive. rewrite Hrun. unfold call_dev.
  match goal with
  | |- context [cleanup e m logfile (written st) (res st) (polls st) ?w] =>
      set (w1 := w);
      destruct (cleanup_spec e m logfile (written st) (res st) (polls st) w1 fn)
        as (w' & l & Hc & Hout & (Hm & Hrx & _) & Hfs)
  end.
  { destruct Hopen as (Hfd & Hbase & Hfds). split_and!; try done.
    subst w1. destruct (negb (overrun st =? 0)); exact Hfds. }
  exists w'. split; [exact Hc|].
  assert (Hw1 : exists l1,
             out w1 = out w0 ++ (rx_event <$> calls) ++ l1 /\
             select is_sync_rx l1 = [] /\ select is_munmap l1 = [] /\
             (overrun st <> 0 -> ev_stderr "OVERRUN OCCURRED!" ∈ l1) /\
             fs w1 = fs w0).
  { subst w1. destruct (Z.eqb_spec (overrun st) 0) as [Hz|Hnz]; cbn [negb];
      unfold emit; cbn [out fs]; rewrite <- ?app_assoc;
      (eexists; split; [reflexivity|]); split_and!; try reflexivity.
    - contradiction.
    - intros _. cbn [app]. rewrite !elem_of_cons. auto. }
  destruct Hw1 as (l1 & Hout1 & Hrx1 & Hm1 & Hwarn & Hfs1).
  split_and!.
  - rewrite Hfs, Hfs1. reflexivity.
  - intros Hov. rewrite Hout, Hout1, !elem_of_app. auto.
  - rewrite Hout, Hout1, !select_app, select_rx_events, Hrx1, Hrx, !app_nil_r.
    reflexivity.
  - unfold close_file_calls.
    rewrite Hout, Hout1, !select_app, select_munmap_rx_events, Hm1, Hm, !length_app.
    cbn [length app]. lia.
Qed.

(** ** From the start of [main] to the loop *)

Lemma close_file_quiet e m wr w w' :
  close_file e m wr w = Some w' ->
  exists l, out w' = out w ++ l /\ existsb is_start_message l = false.
Proof.
  unfold close_file.
  destruct (negb (0 <=? fd m)); [discriminate|].
  destruct (map_base m); try discriminate.
  destruct (0 <? wr) eqn:H1, (msync_fails e) eqn:H2, (truncate_fails e) eqn:H3,
    (to_off_t wr <? 0) eqn:H4, (fds w !! fd m) eqn:H5;
    unfold Sys.msync, Sys.ftruncate, Sys.munmap, Sys.close, perror;
    cbn -[to_off_t]; rewrite ?H5, ?H4; cbn -[to_off_t];
    intros [= <-]; cbn [out emit]; rewrite <- ?app_assoc;
    (eexists; split; [reflexivity|reflexivity]).
Qed.

Lemma cleanup_not_receiving e m logfile wr r p w o w' :
  cleanup e m logfile wr r p w = (o, w') -> began_receiving w' -> began_receiving w.
Proof.
  unfold cleanup.
  destruct (close_file e m wr w) as [w1|] eqn:Hc; [|intros [= <- <-]; done].
  destruct (close_file_quiet _ _ _ _ _ Hc) as (l & Hout & Hl).
  destruct (autoscale_float (float_of_Z wr)) as [fv suffix].
  unfold began_receiving.
  destruct logfile; intros [= <- <-]; unfold emit; cbn [out];
    rewrite Hout, !existsb_app, Hl; cbn [existsb is_start_message orb];
    rewrite !orb_false_r; done.
Qed.

Lemma create_file_ok e fn n w m w' :
  create_file e fn n w = (0, m, w') ->
  is_size_t n ->
  0 <= next_fd w ->
  mf_open m fn w' /\ map_size m = n /\
  fs w !! fn = None /\ fs w' = <[fn := n]> (fs w) /\ to_off_t n = n /\
  (began_receiving w' -> began_receiving w) /\
  close_file_calls (out w') = close_file_calls (out w) /\
  select is_sync_rx (out w') = select is_sync_rx (out w).
Proof.
  unfold create_file, Sys.open, Sys.create_excl, Sys.ftruncate, Sys.mmap, Sys.close.
  intros Hrun Hn Hfd.
  destruct (fs w !! fn) eqn:Hfn; simpl in Hrun; [discriminate|].
  destruct (open_fails e); simpl in Hrun; [discriminate|].
  destruct (Z.ltb_spec (next_fd w) 0); [lia|]. simpl in Hrun.
  rewrite lookup_insert_eq in Hrun.
  destruct (presize_fails e); simpl in Hrun; [discriminate|].
  destruct (Z.ltb_spec (to_off_t n) 0) as [|Hoff]; simpl in Hrun; [discriminate|].
  assert (Hid : to_off_t n = n).
  { revert Hoff. unfold to_off_t, to_signed, is_size_t, SIZE_MAX in *.
    rewrite (Z.mod_small n) by lia. destruct (n <? 2 ^ (64 - 1)); lia. }
  destruct (mmap_fails e || (n =? 0)); simpl in Hrun; [discriminate|].
  injection Hrun as <- <-. simpl.
  unfold mf_open; simpl. rewrite lookup_insert_eq, insert_insert_eq, Hid.
  split_and!; try done.
  - trace_solver.
  - unfold close_file_calls. rewrite !select_app; simpl. by rewrite !app_nil_r.
  - rewrite !select_app; simpl. by rewrite !app_nil_r.
Qed.

(** Case analysis on the status of one set-up call; a failed call leads to
    an exit on which the start message was never printed. *)
Ltac status_case c :=
  let Heq := fresh "Heq" in
  destruct (c =? 0) eqn:Heq; simpl; rewrite ?Heq; simpl;
  [ apply Z.eqb_eq in Heq
  | let Hrun := fresh "Hrun" in
    let Hb := fresh "Hb" in
    intros Hrun Hb;
    first [ injection Hrun as <- <-; trace_solver
          | apply cleanup_not_receiving in Hrun; [trace_solver | exact Hb] ] ].

Ltac reached_loop He :=
  let Hrun := fresh "Hrun" in
  rewrite ?He; intros Hrun _; right; eexists; split; [exact Hrun|];
  unfold close_file_calls; simpl; rewrite !select_app; simpl;
  rewrite !app_nil_r; done.

Lemma device_receiving e a m logfile w o w' :
  device e a m logfile w = (o, w') ->
  began_receiving w' ->
  began_receiving w \/
  exists w0,
    receive e m logfile 0 w0 = (o, w') /\
    fs w0 = fs w /\ fds w0 = fds w /\
    close_file_calls (out w0) = close_file_calls (out w) /\
    select is_sync_rx (out w0) = select is_sync_rx (out w).
Proof.
  unfold device, call_dev.
  destruct (manual_gain a =? INT_MIN); simpl.
  - status_case (dev_status e bladerf_open).
    status_case (dev_status e (bladerf_set_frequency DEFAULT_FREQ)).
    status_case (dev_status e (bladerf_set_sample_rate DEFAULT_SAMPLERATE)).
    status_case (dev_status e (bladerf_set_bandwidth DEFAULT_BANDWIDTH)).
    status_case (dev_status e (bladerf_set_gain_mode false)).
    status_case (dev_status e (bladerf_sync_config NUM_BUFFERS NUM_SAMPLES
                                 NUM_TRANSFERS TIMEOUT_MS)).
    status_case (dev_status e (bladerf_enable_module true)).
    reached_loop Heq5.
  - status_case (dev_status e bladerf_open).
    status_case (dev_status e (bladerf_set_frequency DEFAULT_FREQ)).
    status_case (dev_status e (bladerf_set_sample_rate DEFAULT_SAMPLERATE)).
    status_case (dev_status e (bladerf_set_bandwidth DEFAULT_BANDWIDTH)).
    status_case (dev_status e (bladerf_set_gain_mode true)).
    status_case (dev_status e (bladerf_set_gain (manual_gain a))).
    status_case (dev_status e (bladerf_sync_config NUM_BUFFERS NUM_SAMPLES
                                 NUM_TRANSFERS TIMEOUT_MS)).
    status_case (dev_status e (bladerf_enable_module true)).
    reached_loop Heq6.
Qed.

Lemma create_file_not_receiving e fn n w r m w' :
  create_file e fn n w = (r, m, w') -> began_receiving w' -> began_receiving w.
Proof.
  unfold create_file, Sys.open, Sys.create_excl, Sys.ftruncate, Sys.mmap, Sys.close.
  destruct (fs w !! fn); simpl; [intros [= <- <- <-]; trace_solver|].
  destruct (open_fails e); simpl; [intros [= <- <- <-]; trace_solver|].
  destruct (next_fd w <? 0); simpl; [intros [= <- <- <-]; trace_solver|].
  rewrite lookup_insert_eq.
  destruct (presize_fails e), (to_off_t n <? 0); simpl;
    try (intros [= <- <- <-]; trace_solver).
  destruct (mmap_fails e || (n =? 0)); simpl; intros [= <- <- <-]; trace_solver.
Qed.

Lemma capture_receiving e a fn logfile w o w' :
  capture e a fn logfile w = (o, w') ->
  began_receiving w' ->
  ~ began_receiving w ->
  is_size_t (max_size a) ->
  0 <= next_fd w ->
  exists m w0,
    receive e m logfile 0 w0 = (o, w') /\
    mf_open m fn w0 /\ map_size m = max_size a /\
    fs w !! fn = None /\ fs w0 = <[fn := max_size a]> (fs w) /\
    to_off_t (max_size a) = max_size a /\
    close_file_calls (out w0) = close_file_calls (out w) /\
    select is_sync_rx (out w0) = select is_sync_rx (out w).
Proof.
  unfold capture. intros Hrun Hb Hnot Hsize Hfd.
  destruct (create_file e fn (max_size a) w) as [[r m] w1] eqn:Hcf.
  destruct (Z.eqb_spec r 0) as [->|Hr]; simpl in Hrun.
  - destruct (create_file_ok _ _ _ _ _ _ Hcf Hsize Hfd)
      as ((Hfd' & Hbase & Hfds) & Hms & Hnone & Hfs & Hoff & Hnb & Hcnt & Hsel).
    destruct (device_receiving _ _ _ _ _ _ _ Hrun Hb)
      as [Hbad | (w0 & Hrecv & Hfs0 & Hfds0 & Hcnt0 & Hsel0)].
    { exfalso. apply Hnot, Hnb. revert Hbad. trace_solver. }
    exists m, w0. unfold mf_open. rewrite Hfds0, Hfs0, Hcnt0, Hsel0. simpl.
    unfold close_file_calls in *. simpl. rewrite !select_app. simpl.
    rewrite !app_nil_r. split_and!; done.
  - injection Hrun as <- <-. exfalso.
    eapply Hnot, create_file_not_receiving; eauto.
Qed.

(** A run that printed the start message went through every set-up step:
    the arguments were complete, the artifact did not exist and is now
    [max_size] bytes long, and the rest of the run is [receive]. *)
Lemma main_receiving e opts o w :
  main e opts = (o, w) ->
  began_receiving w ->
  exists a fn m logfile w0,
    getopt_loop opts args_init = Parsed a /\ fname a = Some fn /\
    size_ok (max_size a) /\ max_size a <> 0 /\
    receive e m logfile 0 w0 = (o, w) /\
    mf_open m fn w0 /\ map_size m = max_size a /\
    fs0 e !! fn = None /\
    fs w0 !! fn = Some (max_size a) /\
    to_off_t (max_size a) = max_size a /\
    close_file_calls (out w0) = 0%nat /\
    select is_sync_rx (out w0) = [].
Proof.
  unfold main. intros Hrun Hb.
  destruct (getopt_loop opts args_init) as [a| |] eqn:Hargs;
    try (injection Hrun as <- <-; trace_solver).
  pose proof (getopt_loop_size_ok _ _ _ args_init_size_ok Hargs) as Hok.
  destruct (fname a) as [fn|] eqn:Hfn; [|injection Hrun as <- <-; trace_solver].
  destruct (Z.eqb_spec (max_size a) 0) as [|Hnz];
    [injection Hrun as <- <-; trace_solver|].
  destruct (log_fname a) as [path|].
  - unfold Sys.fopen_wx, Sys.create_excl in Hrun. simpl in Hrun.
    destruct (fs0 e !! path) eqn:Hpath; simpl in Hrun;
      [injection Hrun as <- <-; trace_solver|].
    destruct (fopen_fails e); simpl in Hrun;
      [injection Hrun as <- <-; trace_solver|].
    destruct (capture_receiving _ _ _ _ _ _ _ Hrun Hb)
      as (m & w0 & Hrecv & Hopen & Hms & Hnone & Hfs & Hoff & Hcnt & Hsel);
      [trace_solver | apply Hok | simpl; lia |].
    simpl in Hnone, Hfs, Hcnt, Hsel.
    exists a, fn, m, true, w0. rewrite Hfs, lookup_insert_eq.
    assert (fn <> path) by (intros ->; rewrite lookup_insert_eq in Hnone; done).
    rewrite lookup_insert_ne in Hnone by done.
    split_and!; done.
  - destruct (capture_receiving _ _ _ _ _ _ _ Hrun Hb)
      as (m & w0 & Hrecv & Hopen & Hms & Hnone & Hfs & Hoff & Hcnt & Hsel);
      [trace_solver | apply Hok | simpl; lia |].
    simpl in Hnone, Hfs, Hcnt, Hsel.
    exists a, fn, m, false, w0. rewrite Hfs, lookup_insert_eq.
    split_and!; done.
Qed.

Lemma loop_init_ext m m' r : map_size m = map_size m' -> loop_init m r = loop_init m' r.
Proof. unfold loop_init. intros ->. reflexivity. Qed.

Lemma rx_loop_capacity sig ds :
  forall st calls st',
    rx_loop sig ds st = (calls, st', Some capacity_exhausted) -> remaining st' = 0.
Proof.
  induction ds as [|d ds IH]; intros st calls st' Hrun;
    rewrite rx_loop_unfold in Hrun;
    destruct (loop_guard sig st) as [why0|] eqn:Hg;
    try (injection Hrun as <- <- ->; simpl;
         unfold loop_guard in Hg; repeat case_match; try discriminate; lia);
    try discriminate.
  cbv zeta in Hrun. destruct (negb (d_res d =? 0)); [discriminate|].
  destruct (rx_loop sig ds _) as [[calls' st''] why'] eqn:Hrec.
  injection Hrun as <- <- ->. eapply IH, Hrec.
Qed.

(** ** Properties of whole runs *)

(** C2: a run that leaves the loop because [remaining] reached zero, every
    delivery having reported at most the number of samples asked for, has
    written exactly [max_size] bytes, finalizes the store once and leaves an
    artifact of exactly [max_size] bytes (whatever the final [ftruncate]
    answers), with exit code 0. *)
Theorem capacity_exhausted_artifact_size e opts o w a fn m calls st :
  main e opts = (o, w) ->
  began_receiving w ->
  getopt_loop opts args_init = Parsed a ->
  fname a = Some fn ->
  map_size m = max_size a ->
  rx_loop (signal_at e) (deliveries e) (loop_init m 0)
  = (calls, st, Some capacity_exhausted) ->
  Forall obeys calls ->
  written st = max_size a /\
  fs w !! fn = Some (max_size a) /\
  close_file_calls (out w) = 1%nat /\
  o = Exited 0.
Proof.
  intros Hmain Hb Hargs Hfn Hms Hrun Hob.
  destruct (main_receiving _ _ _ _ Hmain Hb)
    as (a' & fn' & m' & logfile & w0 & Hargs' & Hfn' & (Hsz & Hmod) & Hnz & Hrecv
        & Hopen & Hms' & Hnone & Hfs0 & Hoff & Hcnt & Hsel).
  rewrite Hargs in Hargs'. injection Hargs' as <-.
  rewrite Hfn in Hfn'. injection Hfn' as <-.
  rewrite (loop_init_ext m m') in Hrun by congruence.
  destruct (receive_spec _ _ logfile _ _ _ _ _ Hopen Hrun)
    as (w' & Hrecv' & Hfs & _ & _ & Hcnt').
  rewrite Hrecv in Hrecv'. injection Hrecv' as -> <-.
  assert (Hsz' : is_size_t (map_size m')) by (rewrite Hms'; exact Hsz).
  destruct (rx_loop_inv _ _ _ _ _ _ _ Hsz' (loop_init_inv m' 0 Hsz') Hrun Hob)
    as (_ & (Hsum & _ & _ & _) & _).
  pose proof (rx_loop_capacity _ _ _ _ _ Hrun) as Hrem.
  assert (Hw : written st = max_size a).
  { rewrite Hms' in Hsum. pose proof (Z.div_mod (max_size a) 4). lia. }
  destruct (rx_loop_res _ _ (loop_init m' 0) _ _ _ eq_refl Hrun) as [[? _]|[_ Hres]]; [discriminate|].
  split_and!.
  - exact Hw.
  - rewrite Hfs, Hw. unfold truncated.
    destruct (truncate_fails e || (to_off_t (max_size a) <? 0)); [exact Hfs0|].
    rewrite Hoff. apply lookup_insert_eq.
  - rewrite Hcnt', Hcnt. reflexivity.
  - rewrite Hres. reflexivity.
Qed.

(** C3: after the loop the exit code is 0 when the loop was left because
    of the stop flag, an overrun or exhausted capacity, and 1 when it was
    left because a receive call failed and the stop flag is still clear
    when [main] returns. (A failed receive call followed by a signal gives
    0.) *)
Theorem exit_code_after_loop e opts o w a m calls st why :
  main e opts = (o, w) ->
  began_receiving w ->
  getopt_loop opts args_init = Parsed a ->
  map_size m = max_size a ->
  rx_loop (signal_at e) (deliveries e) (loop_init m 0) = (calls, st, Some why) ->
  (why <> source_error -> o = Exited 0) /\
  (why = source_error ->
   o = Exited (if stop_flag (signal_at e) (polls st) then 0 else 1)).
Proof.
  intros Hmain Hb Hargs Hms Hrun.
  destruct (main_receiving _ _ _ _ Hmain Hb)
    as (a' & fn & m' & logfile & w0 & Hargs' & _ & _ & _ & Hrecv & Hopen & Hms' & _).
  rewrite Hargs in Hargs'. injection Hargs' as <-.
  rewrite (loop_init_ext m m') in Hrun by congruence.
  destruct (receive_spec _ _ logfile _ _ _ _ _ Hopen Hrun) as (w' & Hrecv' & _).
  rewrite Hrecv in Hrecv'. injection Hrecv' as -> <-.
  destruct (rx_loop_res _ _ (loop_init m' 0) _ _ _ eq_refl Hrun) as [[-> Hres]|[Hne Hres]].
  - split; [congruence|]. intros _.
    destruct (Z.eqb_spec (res st) 0); [contradiction|]. reflexivity.
  - split; [|contradiction]. intros _. rewrite Hres. reflexivity.
Qed.

(** C4: a delivery that reports the overrun flag is the last receive call
    of the run; its samples are kept ([remaining], [dst] and [written] have
    moved by its [actual_count] when the loop is left), the warning is
    printed, the exit code is 0 and, when the final [ftruncate] succeeds and
    the deliveries honoured their requests, the artifact is [written] bytes
    long. With an overrun on the second block after 100 samples in all the
    artifact is 400 bytes long. *)
Theorem overrun_keeps_block_and_stops :
  (forall e opts o w a fn m calls st why pre c post,
      main e opts = (o, w) ->
      began_receiving w ->
      getopt_loop opts args_init = Parsed a ->
      fname a = Some fn ->
      map_size m = max_size a ->
      rx_loop (signal_at e) (deliveries e) (loop_init m 0) = (calls, st, why) ->
      calls = pre ++ c :: post ->
      d_res (rx_got c) = 0 ->
      Z.land (d_status (rx_got c)) BLADERF_META_STATUS_OVERRUN <> 0 ->
      post = [] /\
      remaining st = to_size_t (remaining (rx_at c) - d_actual (rx_got c)) /\
      dst st = dst (rx_at c) + 4 * d_actual (rx_got c) /\
      written st = to_size_t (written (rx_at c) + to_uint (d_actual (rx_got c) * 4)) /\
      select is_sync_rx (out w) = rx_event <$> (pre ++ [c]) /\
      ev_stderr "OVERRUN OCCURRED!" ∈ out w /\
      o = Exited 0 /\
      (truncate_fails e = false -> Forall obeys calls ->
       fs w !! fn = Some (written st))) /\
  (exists w,
      main overrun_env cli_1M = (Exited 0, w) /\
      ev_stderr "OVERRUN OCCURRED!" ∈ out w /\
      fs w !! "capture.iq" = Some 400).
Proof.
  split.
  - intros e opts o w a fn m calls st why pre c post
      Hmain Hb Hargs Hfn Hms Hrun Hcalls Hres Hov.
    destruct (main_receiving _ _ _ _ Hmain Hb)
      as (a' & fn' & m' & logfile & w0 & Hargs' & Hfn' & (Hsz & Hmod) & Hnz & Hrecv
          & Hopen & Hms' & Hnone & Hfs0 & Hoff & Hcnt & Hsel).
    rewrite Hargs in Hargs'. injection Hargs' as <-.
    rewrite Hfn in Hfn'. injection Hfn' as <-.
    rewrite (loop_init_ext m m') in Hrun by congruence.
    destruct (rx_loop_overrun _ _ _ _ _ _ _ _ _ Hrun Hcalls Hres Hov)
      as (-> & Hst & Hwhy & Hover).
    assert (Hwhy' : exists r, why = Some r) by (destruct Hwhy as [->| ->]; eauto).
    destruct Hwhy' as [r ->].
    destruct (receive_spec _ _ logfile _ _ _ _ _ Hopen Hrun)
      as (w' & Hrecv' & Hfs & Hwarn & Hrx & _).
    rewrite Hrecv in Hrecv'. injection Hrecv' as -> <-.
    destruct (rx_loop_res _ _ (loop_init m' 0) _ _ _ eq_refl Hrun)
      as [[-> _]|[_ Hres0]]; [destruct Hwhy; discriminate|].
    split_and!; try (rewrite Hst; reflexivity).
    + reflexivity.
    + rewrite Hrx, Hsel, Hcalls. reflexivity.
    + apply Hwarn. lia.
    + intros Htr Hob.
      assert (Hsz' : is_size_t (map_size m')) by (rewrite Hms'; exact Hsz).
      destruct (rx_loop_inv _ _ _ _ _ _ _ Hsz' (loop_init_inv m' 0 Hsz') Hrun Hob)
        as (_ & (_ & _ & Hw & _) & _).
      assert (Hid : to_off_t (written st) = written st).
      { revert Hoff. rewrite Hms' in Hw. unfold is_size_t, SIZE_MAX in Hsz.
        unfold to_off_t, to_signed.
        rewrite (Z.mod_small (max_size a)), (Z.mod_small (written st)) by lia.
        destruct (Z.ltb_spec (max_size a) (2 ^ (64 - 1)));
          destruct (Z.ltb_spec (written st) (2 ^ (64 - 1))); lia. }
      rewrite Hfs. unfold truncated. rewrite Htr, Hid. simpl.
      destruct (Z.ltb_spec (written st) 0); [lia|]. apply lookup_insert_eq.
  - eexists. split; [vm_compute; reflexivity|]. split.
    + apply list_elem_of_In. vm_compute. tauto.
    + vm_compute. reflexivity.
Qed.

(** C1: the store is not finalized on every exit path after [create_file]
    succeeded. When [bladerf_sync_config] fails, [main] returns its status
    at once: the file has been created, pre-sized and mapped, [close_file]
    is never called and the artifact keeps its full pre-allocated size of
    1000000 bytes although nothing was written. The same happens when
    [bladerf_open] fails. The neighbouring failure of
    [bladerf_set_frequency] goes through [cleanup], calls [close_file] once
    and leaves an empty artifact. *)
Theorem early_return_skips_close_file :
  (exists w,
      main sync_config_fails_env cli_1M = (Exited (-1), w) /\
      ev_mmap 1000000 3 (Mapped 0) ∈ out w /\
      close_file_calls (out w) = 0%nat /\
      fs w !! "capture.iq" = Some 1000000) /\
  (exists w,
      main open_fails_env cli_1M = (Exited (-1), w) /\
      ev_mmap 1000000 3 (Mapped 0) ∈ out w /\
      close_file_calls (out w) = 0%nat /\
      fs w !! "capture.iq" = Some 1000000) /\
  (exists w,
      main set_frequency_fails_env cli_1M = (Exited 1, w) /\
      ev_mmap 1000000 3 (Mapped 0) ∈ out w /\
      close_file_calls (out w) = 1%nat /\
      fs w !! "capture.iq" = Some 0).
Proof.
  split_and!; eexists;
    (split; [vm_compute; reflexivity|]);
    (split; [apply list_elem_of_In; vm_compute; tauto|]);
    (split; vm_compute; reflexivity).
Qed.

(** C5 as stated fails: with complete arguments and an existing target
    [main] returns -1, which is exit status 255 and not 1. *)
Lemma existing_target_exit_code_is_not_1 :
  ~ (forall e opts a fn,
        getopt_loop opts args_init = Parsed a ->
        fname a = Some fn ->
        max_size a <> 0 ->
        is_Some (fs0 e !! fn) ->
        exists w, main e opts = (Exited 1, w)).
Proof.
  intros H.
  destruct (H existing_target_env cli_1M
              {| fname := Some "capture.iq"; log_fname := None;
                 max_size := 1000000; manual_gain := INT_MIN |}
              "capture.iq" eq_refl eq_refl) as [w Hw].
  - discriminate.
  - vm_compute. eauto.
  - vm_compute in Hw. discriminate.
Qed.

(** C5, amended: with complete arguments and an existing target [main]
    returns -1 (exit status 255), no libbladeRF function is called and
    every file that existed keeps its size. *)
Theorem existing_target_is_refused e opts a fn :
  getopt_loop opts args_init = Parsed a ->
  fname a = Some fn ->
  max_size a <> 0 ->
  is_Some (fs0 e !! fn) ->
  exists w,
    main e opts = (Exited (-1), w) /\
    exit_status (-1) = 255 /\
    Forall (fun ev => is_dev_event ev = false) (out w) /\
    (forall p, is_Some (fs0 e !! p) -> fs w !! p = fs0 e !! p).
Proof.
  intros Hargs Hfn Hnz [sz Hex]. unfold main. rewrite Hargs, Hfn.
  destruct (Z.eqb_spec (max_size a) 0); [contradiction|].
  destruct (log_fname a) as [path|].
  - unfold Sys.fopen_wx, Sys.create_excl; simpl.
    destruct (fs0 e !! path) eqn:Hpath; simpl.
    { eexists. split_and!; [reflexivity | reflexivity | | done].
      simpl. repeat constructor. }
    destruct (fopen_fails e); simpl.
    { eexists. split_and!; [reflexivity | reflexivity | | done].
      simpl. repeat constructor. }
    assert (path <> fn) by congruence.
    unfold capture, create_file, Sys.open, Sys.create_excl; simpl.
    rewrite lookup_insert_ne, Hex by done. simpl.
    eexists. split_and!; [reflexivity | reflexivity | |].
    + simpl. repeat constructor.
    + simpl. intros p [? Hp]. rewrite lookup_insert_ne; [done|congruence].
  - unfold capture, create_file, Sys.open, Sys.create_excl; simpl.
    rewrite Hex. simpl.
    eexists. split_and!; [reflexivity | reflexivity | | done].
    simpl. repeat constructor.
Qed.

(** ** [autoscale_float] *)

(** C7: 999 stays 999 with the blank unit, 1000 becomes 1 kilo, 999999
    becomes the float nearest to 999.999 (within half a unit in the last
    place, 2^-15) kilo, 1000000 becomes 1 mega; and for every input the
    result is the input divided by 1000 once per tier climbed: tier [k] is
    reached through [k] divisions, each made because the value before it
    was at least 1000, and the climb stops at the first value below 1000
    or at giga. *)
Theorem autoscale_float_tiers :
  autoscale_float (float_of_Z 999) = (float_of_Z 999, " "%char) /\
  autoscale_float (float_of_Z 1000) = (float_of_Z 1, "k"%char) /\
  (exists m,
      autoscale_float (float_of_Z 999999) = (S754_finite false m (-14), "k"%char) /\
      2 * Z.abs (Z.pos m * 1000 - 999999 * 2 ^ 14) <= 1000) /\
  autoscale_float (float_of_Z 1000000) = (float_of_Z 1, "M"%char) /\
  (forall val,
      exists k,
        (k <= 3)%nat /\
        autoscale_float val = (Nat.iter k div_1000 val, unit_at k) /\
        (forall j, (j < k)%nat -> ge_1000 (Nat.iter j div_1000 val) = true) /\
        ((k < 3)%nat -> ge_1000 (Nat.iter k div_1000 val) = false)).
Proof.
  split_and!.
  - vm_compute. reflexivity.
  - vm_compute. reflexivity.
  - eexists. split; [vm_compute; reflexivity|]. vm_compute. discriminate.
  - vm_compute. reflexivity.
  - intros val. unfold autoscale_float, mult. cbn [autoscale_from].
    destruct (ge_1000 val) eqn:H0;
      [destruct (ge_1000 (div_1000 val)) eqn:H1;
       [destruct (ge_1000 (div_1000 (div_1000 val))) eqn:H2|]|].
    + exists 3%nat. split_and!; [lia | reflexivity | | lia].
      intros [|[|[|j]]] Hj; simpl; auto; lia.
    + exists 2%nat. split_and!; [lia | reflexivity | | auto].
      intros [|[|j]] Hj; simpl; auto; lia.
    + exists 1%nat. split_and!; [lia | reflexivity | | auto].
      intros [|j] Hj; simpl; auto; lia.
    + exists 0%nat. split_and!; [lia | reflexivity | | auto].
      intros j Hj; lia.
Qed.

(** ** [parse_fsize] *)

Lemma digit_value_digit c : is_digit c = true -> Libc.digit_value c = Some (digit c).
Proof.
  unfold is_digit, Libc.digit_value, digit.
  destruct ((48 <=? Z.of_N (N_of_ascii c)) && (Z.of_N (N_of_ascii c) <=? 57));
    [reflexivity | discriminate].
Qed.

Lemma append_empty (t : string) : EmptyString +:+ t = t.
Proof. reflexivity. Qed.

Lemma append_String c (s t : string) : String c s +:+ t = String c (s +:+ t).
Proof. reflexivity. Qed.

Lemma digits_from_decimal s :
  forall acc c,
    all_digits s = true ->
    is_digit c = false ->
    Libc.digits_from acc (s +:+ String c EmptyString)
    = acc * 10 ^ Z.of_nat (String.length s) + decimal_value s.
Proof.
  induction s as [|d s IH]; intros acc c Hs Hc;
    rewrite ?append_empty, ?append_String;
    cbn [Libc.digits_from decimal_value String.length].
  - unfold is_digit in Hc. destruct (Libc.digit_value c); [discriminate|].
    change (Z.of_nat 0) with 0. rewrite Z.pow_0_r. lia.
  - simpl in Hs. apply andb_prop in Hs as [Hd Hs].
    rewrite (digit_value_digit _ Hd), (IH _ _ Hs Hc).
    rewrite Nat2Z.inj_succ, Z.pow_succ_r by lia. lia.
Qed.

Lemma decimal_value_nonneg s : all_digits s = true -> 0 <= decimal_value s.
Proof.
  induction s as [|d s IH]; simpl; [lia|].
  intros Hs. apply andb_prop in Hs as [Hd Hs]. specialize (IH Hs).
  assert (0 <= digit d).
  { unfold is_digit, Libc.digit_value, digit in *.
    destruct (Z.leb_spec 48 (Z.of_N (N_of_ascii d))); [lia | discriminate]. }
  assert (0 <= 10 ^ Z.of_nat (String.length s)) by (apply Z.pow_nonneg; lia).
  nia.
Qed.

Lemma last_char_app s c : last_char (s +:+ String c EmptyString) = Some c.
Proof.
  induction s as [|d s IH]; [reflexivity|].
  rewrite append_String. cbn [last_char]. rewrite IH.
  destruct (s +:+ String c EmptyString) eqn:E; [|reflexivity].
  destruct s; discriminate.
Qed.

(** A digit string followed by a letter has no white space or sign in
    front: the subject sequence is the digit string. *)
Lemma subject_digits s c :
  all_digits s = true ->
  c = "M"%char \/ c = "G"%char \/ c = "T"%char ->
  Libc.subject (s +:+ String c EmptyString) = (false, decimal_value s).
Proof.
  intros Hs Hc.
  assert (Hnd : is_digit c = false) by (destruct Hc as [->|[->| ->]]; reflexivity).
  pose proof (digits_from_decimal s 0 c Hs Hnd) as Hv. rewrite Z.mul_0_l, Z.add_0_l in Hv.
  rewrite <- Hv.
  unfold Libc.subject. destruct s as [|d s].
  - destruct Hc as [->|[->| ->]]; reflexivity.
  - simpl in Hs. apply andb_prop in Hs as [Hd _].
    rewrite append_String.
    destruct d as [[] [] [] [] [] [] [] []]; try discriminate Hd; reflexivity.
Qed.

(** C8 as stated fails: the product is taken in the 64-bit [size_t] and
    wraps. 18446744073710 mega is not 18446744073710000000 but 448384. *)
Lemma parse_fsize_wraps :
  ~ (forall s, all_digits s = true ->
               parse_fsize (s +:+ "M") = Some (decimal_value s * 1000000)).
Proof.
  intros H. specialize (H "18446744073710" eq_refl).
  vm_compute in H. discriminate.
Qed.

(** C8, amended: a decimal number followed by M, G or T is mapped to the
    number times 1000000, 1000000000 or 1000000000000 whenever that product
    fits [size_t] (is at most 2^64 - 1); "10M" is 10000000, "1G" is
    1000000000 and "2T" is 2000000000000. In every case the result is the
    number, clamped to 2^64 - 1 as [strtoull] returns it, times the
    multiplier, modulo 2^64: 18446744073710 mega is 448384, and 2^64 mega
    is (2^64 - 1) * 1000000 modulo 2^64, which is 2^64 - 1000000. *)
Theorem parse_fsize_decimal_suffix :
  (forall s c k,
      all_digits s = true ->
      (c = "M"%char /\ k = 1000000) \/
      (c = "G"%char /\ k = 1000000000) \/
      (c = "T"%char /\ k = 1000000000000) ->
      decimal_value s * k <= SIZE_MAX ->
      parse_fsize (s +:+ String c EmptyString) = Some (decimal_value s * k)) /\
  (forall s c k,
      all_digits s = true ->
      (c = "M"%char /\ k = 1000000) \/
      (c = "G"%char /\ k = 1000000000) \/
      (c = "T"%char /\ k = 1000000000000) ->
      parse_fsize (s +:+ String c EmptyString)
      = Some ((Z.min (decimal_value s) (2 ^ 64 - 1) * k) mod 2 ^ 64)) /\
  parse_fsize "10M" = Some 10000000 /\
  parse_fsize "1G" = Some 1000000000 /\
  parse_fsize "2T" = Some 2000000000000 /\
  parse_fsize "18446744073710M" = Some 448384 /\
  parse_fsize "18446744073709551616M" = Some (2 ^ 64 - 1000000).
Proof.
  assert (Hall : forall s c k,
    all_digits s = true ->
    (c = "M"%char /\ k = 1000000) \/
    (c = "G"%char /\ k = 1000000000) \/
    (c = "T"%char /\ k = 1000000000000) ->
    parse_fsize (s +:+ String c EmptyString)
    = Some ((Z.min (decimal_value s) (2 ^ 64 - 1) * k) mod 2 ^ 64)).
  { intros s c k Hs Hc.
    assert (Hck : (c = "M"%char \/ c = "G"%char \/ c = "T"%char) /\ suffix_mult c = k).
    { destruct Hc as [[-> ->]|[[-> ->]|[-> ->]]]; (split; [tauto | reflexivity]). }
    destruct Hck as (Hc' & Hk).
    unfold parse_fsize, Libc.strtoull.
    rewrite last_char_app, (subject_digits s c Hs Hc'), Hk.
    unfold to_size_t, to_unsigned, ULLONG_MAX.
    destruct (Z.ltb_spec (2 ^ 64 - 1) (decimal_value s)).
    - rewrite Z.min_r by lia. reflexivity.
    - rewrite Z.min_l by lia. reflexivity. }
  split; [|split; [exact Hall | split_and!; vm_compute; reflexivity]].
  intros s c k Hs Hc Hfit.
  pose proof (decimal_value_nonneg s Hs) as Hpos.
  assert (Hk1 : 1 <= k) by (destruct Hc as [[_ ->]|[[_ ->]|[_ ->]]]; lia).
  rewrite (Hall s c k Hs Hc). unfold SIZE_MAX in Hfit.
  rewrite Z.min_l by nia. f_equal. apply Z.mod_small. nia.
Qed.

(** ** A size without suffix *)

Lemma getopt_loop_no_size opts :
  forall a,
    Forall (fun o => is_opt_s o = false) opts ->
    getopt_loop opts a = BadOption \/
    exists a', getopt_loop opts a = Parsed a' /\ max_size a' = max_size a.
Proof.
  induction opts as [|o opts IH]; intros a Hno; simpl.
  - right. eauto.
  - apply Forall_cons in Hno as [Ho Hno].
    destruct o; try discriminate Ho; auto;
      match goal with
      | |- context [getopt_loop opts ?a1] =>
          destruct (IH a1 Hno) as [->|(a' & -> & Ha')]; [auto | right; eauto]
      end.
Qed.

Lemma main_without_size e opts a :
  getopt_loop opts args_init = BadOption \/
  (getopt_loop opts args_init = Parsed a /\ max_size a = 0) ->
  main e opts = (Exited 1, usage (init_world e)).
Proof.
  unfold main. intros [->|[-> Hz]]; [reflexivity|].
  destruct (fname a); [|reflexivity]. rewrite Hz. reflexivity.
Qed.

(** C10 as stated fails: the last [-s] counts, so an unsuffixed size that a
    valid one follows is forgotten. [-f capture.iq -s 500 -s 1M] creates the
    artifact, opens the device, receives and returns 0. *)
Lemma unsuffixed_size_before_valid_size_runs :
  ~ (forall e pre post arg c a0,
        last_char arg = Some c ->
        c <> "M"%char -> c <> "G"%char -> c <> "T"%char ->
        getopt_loop pre args_init = Parsed a0 ->
        exists w,
          main e (pre ++ opt_s arg :: post) = (Exited 1, w) /\ out w = [ev_usage]).
Proof.
  intros H.
  destruct (H capacity_env [opt_f "capture.iq"] [opt_s "1M"] "500" "0"%char
              {| fname := Some "capture.iq"; log_fname := None;
                 max_size := 0; manual_gain := INT_MIN |})
    as (w & Hw & _).
  - reflexivity.
  - discriminate.
  - discriminate.
  - discriminate.
  - reflexivity.
  - vm_compute in Hw. discriminate.
Qed.

(** C10, amended: an argument of [-s] whose last character is not M, G or T
    is parsed as 0, and a run whose last [-s] is such an argument ends like
    a run without any [-s]: it prints the usage text and returns 1, having
    touched no file and called nothing else. *)
Theorem unsuffixed_size_is_rejected arg c :
  last_char arg = Some c ->
  c <> "M"%char -> c <> "G"%char -> c <> "T"%char ->
  parse_fsize arg = Some 0 /\
  (forall e pre post a0,
      getopt_loop pre args_init = Parsed a0 ->
      Forall (fun o => is_opt_s o = false) post ->
      exists w,
        main e (pre ++ opt_s arg :: post) = (Exited 1, w) /\
        out w = [ev_usage] /\ fs w = fs0 e /\ fds w = ∅) /\
  (forall e opts,
      Forall (fun o => is_opt_s o = false) opts ->
      exists w,
        main e opts = (Exited 1, w) /\
        out w = [ev_usage] /\ fs w = fs0 e /\ fds w = ∅).
Proof.
  intros Hlast HM HG HT.
  assert (Hparse : parse_fsize arg = Some 0).
  { unfold parse_fsize, suffix_mult. rewrite Hlast.
    apply Ascii.eqb_neq in HM, HG, HT. rewrite HM, HG, HT.
    rewrite Z.mul_0_r. reflexivity. }
  split_and!.
  - exact Hparse.
  - intros e pre post a0 Hpre Hpost.
    exists (usage (init_world e)). split; [|done].
    pose (a1 := {| fname := fname a0; log_fname := log_fname a0;
                   max_size := 0; manual_gain := manual_gain a0 |}).
    assert (Hloop : getopt_loop (pre ++ opt_s arg :: post) args_init
                    = getopt_loop post a1).
    { rewrite getopt_loop_app, Hpre. cbn [getopt_loop]. rewrite Hparse. reflexivity. }
    destruct (getopt_loop_no_size post a1 Hpost) as [Hbad|(a' & Hok & Hsz)].
    + apply (main_without_size e _ args_init). left. rewrite Hloop. exact Hbad.
    + apply (main_without_size e _ a'). right. rewrite Hloop. split; [exact Hok|].
      exact Hsz.
  - intros e opts Hno.
    exists (usage (init_world e)). split; [|done].
    destruct (getopt_loop_no_size opts args_init Hno) as [Hbad|(a' & Hok & Hsz)].
    + apply (main_without_size e _ args_init). auto.
    + apply (main_without_size e _ a'). auto.
Qed.

(** ** The properties at concrete runs *)

Lemma capacity_exhausted_artifact_size_witness :
  written (snd (fst capacity_run)) = 1000000 /\
  fs (snd (main capacity_env cli_1M)) !! "capture.iq" = Some 1000000 /\
  close_file_calls (out (snd (main capacity_env cli_1M))) = 1%nat /\
  fst (main capacity_env cli_1M) = Exited 0.
Proof.
  apply (capacity_exhausted_artifact_size capacity_env cli_1M
           (fst (main capacity_env cli_1M)) (snd (main capacity_env cli_1M))
           args_1M "capture.iq" mf_1M (fst (fst capacity_run)) (snd (fst capacity_run))).
  - vm_compute. reflexivity.
  - vm_compute. reflexivity.
  - reflexivity.
  - reflexivity.
  - reflexivity.
  - vm_compute. reflexivity.
  - repeat constructor; unfold obeys; vm_compute; intros; discriminate.
Defined.

Lemma exit_code_after_loop_witness :
  (source_error <> source_error -> fst (main source_error_env cli_1M) = Exited 0) /\
  (source_error = source_error ->
   fst (main source_error_env cli_1M)
   = Exited (if stop_flag None (polls (snd (fst source_error_run))) then 0 else 1)).
Proof.
  apply (exit_code_after_loop source_error_env cli_1M
           (fst (main source_error_env cli_1M)) (snd (main source_error_env cli_1M))
           args_1M mf_1M (fst (fst source_error_run)) (snd (fst source_error_run))
           source_error).
  - vm_compute. reflexivity.
  - vm_compute. reflexivity.
  - reflexivity.
  - reflexivity.
  - vm_compute. reflexivity.
Defined.

Lemma overrun_keeps_block_and_stops_witness :
  [] = ([] : list rx_call) /\
  remaining (snd (fst overrun_run)) = to_size_t (249940 - 40) /\
  dst (snd (fst overrun_run)) = 240 + 4 * 40 /\
  written (snd (fst overrun_run)) = to_size_t (240 + to_uint (40 * 4)) /\
  select is_sync_rx (out (snd (main overrun_env cli_1M)))
  = rx_event <$> fst (fst overrun_run) /\
  ev_stderr "OVERRUN OCCURRED!" ∈ out (snd (main overrun_env cli_1M)) /\
  fst (main overrun_env cli_1M) = Exited 0 /\
  (truncate_fails overrun_env = false -> Forall obeys (fst (fst overrun_run)) ->
   fs (snd (main overrun_env cli_1M)) !! "capture.iq"
   = Some (written (snd (fst overrun_run)))).
Proof.
  apply (proj1 overrun_keeps_block_and_stops overrun_env cli_1M
           (fst (main overrun_env cli_1M)) (snd (main overrun_env cli_1M))
           args_1M "capture.iq" mf_1M (fst (fst overrun_run)) (snd (fst overrun_run))
           (snd overrun_run)
           [{| rx_at := polled (loop_init mf_1M 0); rx_num := 250000;
               rx_got := block 60 |}]
           {| rx_at := polled (loop_body (with_res 0 (polled (loop_init mf_1M 0)))
                                  (block 60));
              rx_num := 249940; rx_got := overrun_block 40 |}
           []).
  - vm_compute. reflexivity.
  - vm_compute. reflexivity.
  - reflexivity.
  - reflexivity.
  - reflexivity.
  - vm_compute. reflexivity.
  - vm_compute. reflexivity.
  - reflexivity.
  - vm_compute. discriminate.
Defined.

Lemma existing_target_is_refused_witness :
  exists w,
    main existing_target_env cli_1M = (Exited (-1), w) /\
    exit_status (-1) = 255 /\
    Forall (fun ev => is_dev_event ev = false) (out w) /\
    (forall p, is_Some (fs0 existing_target_env !! p) ->
               fs w !! p = fs0 existing_target_env !! p).
Proof.
  apply (existing_target_is_refused existing_target_env cli_1M args_1M "capture.iq").
  - reflexivity.
  - reflexivity.
  - vm_compute. discriminate.
  - vm_compute. eauto.
Defined.

Lemma rx_loop_cursor_invariant_witness :
  Forall (fun c =>
            written (rx_at c) + 4 * remaining (rx_at c) = 4 * (map_size mf_1M / 4) /\
            written (rx_at c) <= map_size mf_1M /\
            dst (rx_at c) <= map_size mf_1M) (fst (fst overrun_run)) /\
  written (snd (fst overrun_run)) + 4 * remaining (snd (fst overrun_run))
  = 4 * (map_size mf_1M / 4) /\
  written (snd (fst overrun_run)) <= map_size mf_1M /\
  dst (snd (fst overrun_run)) <= map_size mf_1M /\
  stored_offsets (fst (fst overrun_run))
  = (fun k => 4 * k) <$> seqZ 0 (written (snd (fst overrun_run)) / 4) /\
  StronglySorted Z.lt (stored_offsets (fst (fst overrun_run))).
Proof.
  apply (rx_loop_cursor_invariant None [block 60; overrun_block 40] mf_1M 0
           (fst (fst overrun_run)) (snd (fst overrun_run)) (snd overrun_run)).
  - vm_compute. split; discriminate.
  - vm_compute. reflexivity.
  - repeat constructor; unfold obeys; vm_compute; intros; discriminate.
Defined.

Lemma parse_fsize_decimal_suffix_witness :
  parse_fsize ("500" +:+ "M") = Some (decimal_value "500" * 1000000) /\
  parse_fsize ("18446744073709551616" +:+ "M")
  = Some ((Z.min (decimal_value "18446744073709551616") (2 ^ 64 - 1) * 1000000)
          mod 2 ^ 64).
Proof.
  split.
  - apply (proj1 parse_fsize_decimal_suffix "500" "M"%char 1000000).
    + reflexivity.
    + left. split; reflexivity.
    + vm_compute. discriminate.
  - apply (proj1 (proj2 parse_fsize_decimal_suffix) "18446744073709551616" "M"%char
             1000000).
    + reflexivity.
    + left. split; reflexivity.
Defined.

Lemma rx_loop_safe_iff_deliveries_obey_witness :
  Forall (fun c => d_res (rx_got c) = 0 ->
                   rx_num c = MIN (remaining (rx_at c)) NUM_SAMPLES /\
                   d_actual (rx_got c) <= remaining (rx_at c) /\
                   dst (rx_at c) + 4 * d_actual (rx_got c) <= map_size mf_1M)
    (fst (fst overrun_run)) /\
  0 <= remaining (snd (fst overrun_run)) /\
  dst (snd (fst overrun_run)) <= map_size mf_1M.
Proof.
  apply (proj1 rx_loop_safe_iff_deliveries_obey None [block 60; overrun_block 40]
           mf_1M 0 (fst (fst overrun_run)) (snd (fst overrun_run)) (snd overrun_run)).
  - vm_compute. split; discriminate.
  - vm_compute. reflexivity.
  - repeat constructor; unfold obeys; vm_compute; intros; discriminate.
Defined.

Lemma unsuffixed_size_is_rejected_witness :
  parse_fsize "500" = Some 0 /\
  (forall e pre post a0,
      getopt_loop pre args_init = Parsed a0 ->
      Forall (fun o => is_opt_s o = false) post ->
      exists w,
        main e (pre ++ opt_s "500" :: post) = (Exited 1, w) /\
        out w = [ev_usage] /\ fs w = fs0 e /\ fds w = ∅) /\
  (forall e opts,
      Forall (fun o => is_opt_s o = false) opts ->
      exists w,
        main e opts = (Exited 1, w) /\
        out w = [ev_usage] /\ fs w = fs0 e /\ fds w = ∅).
Proof.
  apply (unsuffixed_size_is_rejected "500" "0"%char).
  - reflexivity.
  - discriminate.
  - discriminate.
  - discriminate.
Defined.

(** ** The assertions of [close_file] *)

Lemma receive_exits e m logfile w fn :
  mf_open m fn w ->
  exists w', receive e m logfile 0 w = (Pending, w') \/
             exists code, receive e m logfile 0 w = (Exited code, w').
Proof.
  intros Hopen.
  destruct (rx_loop (signal_at e) (deliveries e) (loop_init m 0))
    as [[calls st] [why|]] eqn:Hrun.
  - destruct (receive_spec e m logfile w fn calls st why Hopen Hrun) as (w' & Hr & _).
    exists w'. right. eexists. exact Hr.
  - unfold receive. rewrite Hrun. eexists. left. reflexivity.
Qed.

Lemma mf_open_emit m fn ev w : mf_open m fn w -> mf_open m fn (emit ev w).
Proof. exact id. Qed.

(** Case analysis on the status of one set-up call when the goal is that
    the run does not abort. *)
Ltac status_no_abort c Hopen :=
  let Heq := fresh "Heq" in
  destruct (c =? 0) eqn:Heq; cbn [negb fst snd]; rewrite ?Heq; cbn [negb fst snd];
  [ apply Z.eqb_eq in Heq
  | first [ discriminate
          | match goal with
            | |- fst (cleanup ?e ?m ?l ?wr ?r ?p ?w) <> Aborted =>
                let w' := fresh "w'" in
                let l' := fresh "l'" in
                let Hc := fresh "Hc" in
                destruct (cleanup_spec e m l wr r p w _ Hopen) as (w' & l' & Hc & _);
                rewrite Hc; discriminate
            end ] ].

Lemma device_no_abort e a m logfile w fn :
  mf_open m fn w -> fst (device e a m logfile w) <> Aborted.
Proof.
  intros Hopen. unfold device, call_dev.
  destruct (manual_gain a =? INT_MIN); cbn [negb].
  - status_no_abort (dev_status e bladerf_open) Hopen.
    status_no_abort (dev_status e (bladerf_set_frequency DEFAULT_FREQ)) Hopen.
    status_no_abort (dev_status e (bladerf_set_sample_rate DEFAULT_SAMPLERATE)) Hopen.
    status_no_abort (dev_status e (bladerf_set_bandwidth DEFAULT_BANDWIDTH)) Hopen.
    status_no_abort (dev_status e (bladerf_set_gain_mode false)) Hopen.
    status_no_abort (dev_status e (bladerf_sync_config NUM_BUFFERS NUM_SAMPLES
                                     NUM_TRANSFERS TIMEOUT_MS)) Hopen.
    status_no_abort (dev_status e (bladerf_enable_module true)) Hopen.
    rewrite Heq5.
    match goal with
    | |- fst (receive e m logfile 0 ?w1) <> Aborted =>
        destruct (receive_exits e m logfile w1 fn Hopen) as (w' & [Hr|[code Hr]]);
        rewrite Hr; discriminate
    end.
  - status_no_abort (dev_status e bladerf_open) Hopen.
    status_no_abort (dev_status e (bladerf_set_frequency DEFAULT_FREQ)) Hopen.
    status_no_abort (dev_status e (bladerf_set_sample_rate DEFAULT_SAMPLERATE)) Hopen.
    status_no_abort (dev_status e (bladerf_set_bandwidth DEFAULT_BANDWIDTH)) Hopen.
    status_no_abort (dev_status e (bladerf_set_gain_mode true)) Hopen.
    status_no_abort (dev_status e (bladerf_set_gain (manual_gain a))) Hopen.
    status_no_abort (dev_status e (bladerf_sync_config NUM_BUFFERS NUM_SAMPLES
                                     NUM_TRANSFERS TIMEOUT_MS)) Hopen.
    status_no_abort (dev_status e (bladerf_enable_module true)) Hopen.
    rewrite Heq6.
    match goal with
    | |- fst (receive e m logfile 0 ?w1) <> Aborted =>
        destruct (receive_exits e m logfile w1 fn Hopen) as (w' & [Hr|[code Hr]]);
        rewrite Hr; discriminate
    end.
Qed.

Lemma capture_no_abort e a fn logfile w :
  is_size_t (max_size a) -> 0 <= next_fd w ->
  fst (capture e a fn logfile w) <> Aborted.
Proof.
  intros Hsz Hfd. unfold capture.
  destruct (create_file e fn (max_size a) w) as [[r m] w1] eqn:Hcf.
  destruct (Z.eqb_spec r 0) as [->|Hr]; cbn [negb]; [|discriminate].
  destruct (create_file_ok _ _ _ _ _ _ Hcf Hsz Hfd) as (Hopen & _).
  eapply device_no_abort. exact Hopen.
Qed.

(** X1: the two assertions at the head of [close_file] hold in every run:
    whatever the command line and whatever the environment answers, [main]
    never aborts. [close_file] is reached only with the descriptor and the
    mapping that a successful [create_file] returned. *)
Theorem main_never_aborts e opts : fst (main e opts) <> Aborted.
Proof.
  unfold main.
  destruct (getopt_loop opts args_init) as [a| |] eqn:Hargs; try discriminate.
  pose proof (getopt_loop_size_ok _ _ _ args_init_size_ok Hargs) as [Hsz _].
  destruct (fname a) as [fn|]; [|discriminate].
  destruct (max_size a =? 0); [discriminate|].
  destruct (log_fname a) as [path|].
  - unfold Sys.fopen_wx, Sys.create_excl. cbn [fs init_world].
    destruct (fs0 e !! path); [discriminate|].
    destruct (fopen_fails e); [discriminate|].
    cbn [negb Z.leb Z.compare next_fd init_world].
    apply capture_no_abort; [exact Hsz | cbn; lia].
  - apply capture_no_abort; [exact Hsz | cbn; lia].
Qed.

(** ** [create_file] *)

(** X2: [create_file] returns 0 exactly when the path does not exist yet,
    none of [open], [ftruncate] and [mmap] fails, and the size is neither 0
    nor beyond [off_t] (2^63 and more is a negative length for
    [ftruncate]); it then hands back an open descriptor on the file, a
    mapping of exactly [max_size] bytes, and the file is [max_size] bytes
    long. *)
Theorem create_file_succeeds_iff e fn n w :
  is_size_t n ->
  0 <= next_fd w ->
  (fst (fst (create_file e fn n w)) = 0 <->
   fs w !! fn = None /\ open_fails e = false /\ presize_fails e = false /\
   mmap_fails e = false /\ n <> 0 /\ n < 2 ^ 63) /\
  (fst (fst (create_file e fn n w)) = 0 ->
   let m := snd (fst (create_file e fn n w)) in
   let w' := snd (create_file e fn n w) in
   0 <= fd m /\ map_base m = Mapped 0 /\ map_size m = n /\
   fds w' !! fd m = Some fn /\ fs w' !! fn = Some n).
Proof.
  intros Hn Hfd. split.
  - unfold create_file, Sys.open, Sys.create_excl, Sys.ftruncate, Sys.mmap, Sys.close.
    assert (Hoff : (to_off_t n <? 0) = false <-> n < 2 ^ 63).
    { unfold to_off_t, to_signed, is_size_t, SIZE_MAX in *.
      rewrite (Z.mod_small n) by lia.
      destruct (Z.ltb_spec n (2 ^ (64 - 1))) as [Hlt|Hge];
        change (2 ^ (64 - 1)) with (2 ^ 63) in *; rewrite Z.ltb_ge, ?Z.ltb_lt; lia. }
    destruct (fs w !! fn) eqn:Hfn; cbn [fst snd]; [split; [discriminate | intros [? _]; discriminate]|].
    destruct (open_fails e); cbn [fst snd]; [split; [discriminate | intros (_ & ? & _); discriminate]|].
    destruct (Z.ltb_spec (next_fd w) 0); [lia|]. cbn [fds fs next_fd out emit fst snd].
    rewrite lookup_insert_eq.
    destruct (presize_fails e); cbn [orb negb Z.eqb fst snd];
      [split; [discriminate | intros (_ & _ & ? & _); discriminate]|].
    destruct (to_off_t n <? 0) eqn:Hneg; cbn [negb Z.eqb fst snd].
    { split; [discriminate|]. intros (_ & _ & _ & _ & _ & Hlt).
      apply Hoff in Hlt. discriminate. }
    destruct (mmap_fails e); cbn [orb fst snd];
      [split; [discriminate | intros (_ & _ & _ & ? & _); discriminate]|].
    destruct (Z.eqb_spec n 0); cbn [fst snd].
    { split; [discriminate|]. intros (_ & _ & _ & _ & ? & _). contradiction. }
    split; [intros _|reflexivity]. split_and!; try done. apply Hoff. reflexivity.
  - intros Hr.
    destruct (create_file e fn n w) as [[r m] w'] eqn:Hcf. cbn [fst snd] in *. subst r.
    destruct (create_file_ok _ _ _ _ _ _ Hcf Hn Hfd)
      as ((? & ? & ?) & ? & _ & Hfs & _).
    split_and!; try done. rewrite Hfs. apply lookup_insert_eq.
Qed.

Lemma to_off_t_neg n : is_size_t n -> (to_off_t n <? 0) = (2 ^ 63 <=? n).
Proof.
  unfold to_off_t, to_signed, is_size_t, SIZE_MAX. intros Hn.
  rewrite (Z.mod_small n) by lia. change (2 ^ (64 - 1)) with (2 ^ 63).
  destruct (Z.ltb_spec n (2 ^ 63)) as [Hlt|Hge].
  - rewrite (proj2 (Z.ltb_ge _ _)) by lia. symmetry. apply Z.leb_gt. lia.
  - rewrite (proj2 (Z.ltb_lt _ _)) by lia. symmetry. apply Z.leb_le. lia.
Qed.

Lemma to_off_t_small n : 0 <= n < 2 ^ 63 -> to_off_t n = n.
Proof.
  unfold to_off_t, to_signed. intros Hn.
  rewrite (Z.mod_small n) by lia. change (2 ^ (64 - 1)) with (2 ^ 63).
  destruct (Z.ltb_spec n (2 ^ 63)); lia.
Qed.

(** X3: when [create_file] fails it returns -1 with [*mf] cleared
    ([fd] -1, no mapping), no descriptor stays open and no other file
    changes; but if the failure comes after [open] succeeded, the file it
    has just created stays behind: empty when the pre-sizing failed (as it
    always does for 2^63 bytes and more), at its full size when the mapping
    failed. *)
Theorem create_file_failure e fn n w :
  is_size_t n ->
  0 <= next_fd w ->
  fds w !! next_fd w = None ->
  fst (fst (create_file e fn n w)) <> 0 ->
  let w' := snd (create_file e fn n w) in
  fst (fst (create_file e fn n w)) = -1 /\
  snd (fst (create_file e fn n w)) = mf_cleared /\
  fds w' = fds w /\
  (forall p, p <> fn -> fs w' !! p = fs w !! p) /\
  fs w' !! fn =
  match fs w !! fn with
  | Some sz => Some sz
  | None =>
      if open_fails e then None
      else if presize_fails e || (2 ^ 63 <=? n) then Some 0
      else Some n
  end.
Proof.
  intros Hn Hfd Hfresh.
  unfold create_file, Sys.open, Sys.create_excl, Sys.ftruncate, Sys.mmap, Sys.close.
  rewrite <- (to_off_t_neg n Hn).
  destruct (fs w !! fn) eqn:Hfn; cbn [fst snd]; [intros _; split_and!; done|].
  destruct (open_fails e); cbn [fst snd]; [intros _; split_and!; done|].
  destruct (Z.ltb_spec (next_fd w) 0); [lia|]. cbn [fds fs next_fd out emit fst snd].
  rewrite lookup_insert_eq.
  destruct (presize_fails e), (to_off_t n <? 0) eqn:Hneg; cbn [orb negb Z.eqb fst snd];
    try (intros _; cbn [fds fs perror emit];
         rewrite delete_insert_eq, delete_id, lookup_insert_eq by done;
         split_and!; try done; intros p Hp; apply lookup_insert_ne; done).
  destruct (mmap_fails e || (n =? 0)); cbn [fst snd]; [|intros Hr; contradiction].
  intros _; cbn [fds fs perror emit].
  rewrite delete_insert_eq, delete_id, insert_insert_eq, lookup_insert_eq by done.
  rewrite to_off_t_small.
  - split_and!; try done. intros p Hp; apply lookup_insert_ne; done.
  - rewrite (to_off_t_neg n Hn) in Hneg. apply Z.leb_gt in Hneg.
    unfold is_size_t in Hn. lia.
Qed.

(** ** [close_file] *)

(** X4: called on what [create_file] returned, [close_file] always unmaps
    the whole mapping and then closes the descriptor, also when [msync] or
    [ftruncate] fail; it calls [msync] only when something was written; and
    it leaves the file [written] bytes long unless the truncation fails, in
    which case the size does not change. *)
Theorem close_file_releases e m wr w fn :
  mf_open m fn w ->
  exists w' l,
    close_file e m wr w = Some w' /\
    out w' = out w ++ l ++ [ev_munmap (map_size m); ev_close (fd m)] /\
    select is_msync l
    = (if 0 <? wr then [ev_msync wr (if msync_fails e then -1 else 0)] else []) /\
    select is_munmap l = [] /\
    fds w' = delete (fd m) (fds w) /\
    fs w' = truncated e fn wr (fs w).
Proof.
  intros (Hfd & Hbase & Hfds).
  pose (r := if truncate_fails e || (to_off_t wr <? 0) then -1 else 0).
  pose (l := (if 0 <? wr
              then ev_msync wr (if msync_fails e then -1 else 0)
                   :: (if msync_fails e then [ev_perror "msync"] else [])
              else [])
             ++ ev_ftruncate (fd m) wr r
             :: (if negb (r =? 0) then [ev_perror "ftruncate (final)"] else [])).
  unfold truncated, close_file.
  destruct (Z.leb_spec 0 (fd m)) as [_|]; [cbn [negb] | lia]. rewrite Hbase.
  destruct (0 <? wr) eqn:H1, (msync_fails e) eqn:H2, (truncate_fails e) eqn:H3,
    (to_off_t wr <? 0) eqn:H4;
    unfold Sys.msync, Sys.ftruncate, Sys.munmap, Sys.close, perror;
    cbn -[to_off_t]; rewrite ?Hfds, ?H4; cbn -[to_off_t];
    (eexists; exists l; split; [reflexivity|]);
    subst l r; cbn [out fs fds emit orb negb Z.eqb app];
    (split; [rewrite <- ?app_assoc; cbn [app]; reflexivity |]);
    split_and!; reflexivity.
Qed.


(** ** Termination of the receive loop *)

Lemma rx_loop_ends max sig ds :
  forall st calls st' why,
    is_size_t max ->
    loop_inv max st ->
    rx_loop sig ds st = (calls, st', why) ->
    Forall obeys calls ->
    Forall progresses calls ->
    remaining st <= Z.of_nat (length ds) ->
    why <> None /\ Z.of_nat (length calls) <= remaining st.
Proof.
  induction ds as [|d ds IH]; intros st calls st' why Hmax Hinv Hrun Hob Hpr Hlen;
    rewrite rx_loop_unfold in Hrun;
    destruct (loop_guard sig st) as [why0|] eqn:Hg;
    try (injection Hrun as <- <- <-; split; [discriminate|];
         destruct Hinv as (_ & ? & _); cbn [length]; lia).
  - apply loop_guard_None in Hg as (_ & _ & Hnz).
    destruct Hinv as (_ & ? & _). cbn [length] in Hlen. lia.
  - apply loop_guard_None in Hg as (_ & _ & Hnz).
    cbv zeta in Hrun.
    destruct (Z.eqb_spec (d_res d) 0) as [Hres|Hres]; cbn [negb] in Hrun.
    + destruct (rx_loop sig ds (loop_body (with_res (d_res d) (polled st)) d))
        as [[calls' st''] why'] eqn:Hrec.
      injection Hrun as <- <- <-.
      apply Forall_cons in Hob as [Hc Hob]. apply Forall_cons in Hpr as [Hp Hpr].
      unfold obeys in Hc. unfold progresses in Hp. cbn [rx_got rx_num] in Hc, Hp.
      specialize (Hc Hres). specialize (Hp Hres).
      destruct (loop_body_inv max st (d_res d) d Hmax Hinv Hc) as (Hinv' & Hrem & _).
      cbn [length] in Hlen.
      destruct (IH _ _ _ _ Hmax Hinv' Hrec Hob Hpr) as [Hwhy Hn]; [lia|].
      split; [exact Hwhy|]. cbn [length]. lia.
    + injection Hrun as <- <- <-. split; [discriminate|].
      destruct Hinv as (_ & ? & _). cbn [length]. lia.
Qed.

(** X5: the loop ends when the source makes progress. If every successful
    delivery brings at least one sample and at most the number asked for,
    a script of [max_size / 4] deliveries is enough for the loop to be
    left, and no more than [max_size / 4] receive calls are made. *)
Theorem rx_loop_terminates sig ds m r calls st why :
  is_size_t (map_size m) ->
  rx_loop sig ds (loop_init m r) = (calls, st, why) ->
  Forall obeys calls ->
  Forall progresses calls ->
  map_size m / 4 <= Z.of_nat (length ds) ->
  (exists reason, why = Some reason) /\
  Z.of_nat (length calls) <= map_size m / 4.
Proof.
  intros Hmax Hrun Hob Hpr Hlen.
  destruct (rx_loop_ends _ _ _ _ _ _ _ Hmax (loop_init_inv m r Hmax) Hrun Hob Hpr Hlen)
    as [Hwhy Hn].
  split; [|exact Hn]. destruct why; [eauto | contradiction].
Qed.

Lemma rx_loop_idle n :
  forall st,
    is_size_t (remaining st) -> is_size_t (written st) ->
    remaining st <> 0 -> overrun st = 0 ->
    exists calls st',
      rx_loop None (replicate n (block 0)) st = (calls, st', None) /\
      length calls = n /\ written st' = written st /\ remaining st' = remaining st.
Proof.
  induction n as [|n IH]; intros st Hrem Hwr Hnz Hov;
    rewrite rx_loop_unfold; unfold loop_guard; cbn [stop_flag];
    rewrite Hov; cbn [Z.eqb negb];
    destruct (Z.eqb_spec (remaining st) 0); try contradiction.
  - eexists _, _. cbn [replicate]. split; [reflexivity|]. done.
  - cbn [replicate]. cbv zeta. cbn [block d_res Z.eqb negb].
    match goal with
    | |- context [rx_loop None (replicate n (block 0)) ?st1] =>
        destruct (IH st1) as (calls & st' & Hrun & Hlen & Hw & Hr)
    end.
    + cbn. rewrite Z.sub_0_r, to_size_t_id by exact Hrem. exact Hrem.
    + cbn. change (to_uint 0) with 0. rewrite Z.add_0_r, to_size_t_id by exact Hwr.
      exact Hwr.
    + cbn. rewrite Z.sub_0_r, to_size_t_id by exact Hrem. exact Hnz.
    + reflexivity.
    + rewrite Hrun. eexists _, _. split; [reflexivity|].
      cbn [length]. rewrite Hlen, Hw, Hr. cbn.
      change (to_uint 0) with 0.
      rewrite Z.sub_0_r, Z.add_0_r, !to_size_t_id by assumption. done.
Qed.

(** X6: the loop has no guard against a source that keeps succeeding
    without data. As long as no signal arrives, deliveries of 0 samples
    with status 0 keep it running: after any number of them nothing has
    been written and the next receive call is due. *)
Theorem rx_loop_spins_on_empty_deliveries n m r :
  is_size_t (map_size m) ->
  4 <= map_size m ->
  exists calls st,
    rx_loop None (replicate n (block 0)) (loop_init m r) = (calls, st, None) /\
    length calls = n /\ written st = 0 /\ remaining st = map_size m / 4.
Proof.
  intros Hmax Hge.
  assert (Hq : 1 <= map_size m / 4) by (apply Z.div_le_lower_bound; lia).
  assert (Hq' : map_size m / 4 <= map_size m) by (apply Z.div_le_upper_bound; lia).
  unfold is_size_t, SIZE_MAX in *.
  destruct (rx_loop_idle n (loop_init m r)) as (calls & st & Hrun & Hlen & Hw & Hr);
    cbn [loop_init remaining written overrun]; unfold is_size_t, SIZE_MAX;
    try lia.
  exists calls, st. split_and!; assumption.
Qed.

Lemma rx_loop_after_signal k ds :
  forall st calls st' why,
    rx_loop (Some k) ds st = (calls, st', why) ->
    ((length calls <= k - polls st)%nat \/ (k < polls st)%nat /\ calls = []) /\
    ((k - polls st <= length ds)%nat -> why <> None).
Proof.
  induction ds as [|d ds IH]; intros st calls st' why Hrun;
    rewrite rx_loop_unfold in Hrun;
    destruct (loop_guard (Some k) st) as [why0|] eqn:Hg;
    try (injection Hrun as <- <- <-; cbn [length];
         split; [left; lia | discriminate]).
  - injection Hrun as <- <- <-. cbn [length]. split; [left; lia|].
    apply loop_guard_None in Hg as (Hs & _). cbn [stop_flag] in Hs.
    apply Nat.leb_gt in Hs. lia.
  - apply loop_guard_None in Hg as (Hs & _). cbn [stop_flag] in Hs.
    apply Nat.leb_gt in Hs. cbv zeta in Hrun.
    destruct (negb (d_res d =? 0)).
    + injection Hrun as <- <- <-. cbn [length]. split; [left; lia | discriminate].
    + destruct (rx_loop (Some k) ds _) as [[calls' st''] why'] eqn:Hrec.
      injection Hrun as <- <- <-.
      destruct (IH _ _ _ _ Hrec) as [Hn Hw]. cbn [polls loop_body with_res polled] in *.
      cbn [length]. split.
      * left. destruct Hn as [Hn|[Hn _]]; lia.
      * intros Hlen. apply Hw. lia.
Qed.

(** X7: once the stop flag is set no further request is issued. If the
    signal arrives before the flag is read for the [k]-th time, at most [k]
    receive calls are made, and [k] scripted deliveries are enough for the
    loop to be left. *)
Theorem rx_loop_stops_after_signal k ds m r calls st why :
  rx_loop (Some k) ds (loop_init m r) = (calls, st, why) ->
  (length calls <= k)%nat /\
  ((k <= length ds)%nat -> exists reason, why = Some reason).
Proof.
  intros Hrun.
  destruct (rx_loop_after_signal _ _ _ _ _ _ Hrun) as [Hn Hw].
  cbn [polls loop_init] in *. split.
  - destruct Hn as [Hn|[Hn _]]; lia.
  - intros Hlen. destruct why; [eauto|]. exfalso. apply Hw; [lia | reflexivity].
Qed.

(** ** The size of the artifact *)

Lemma rx_loop_written max sig ds :
  forall st calls st' why,
    is_size_t max ->
    loop_inv max st ->
    rx_loop sig ds st = (calls, st', why) ->
    Forall obeys calls ->
    written st' = written st + 4 * samples_received calls.
Proof.
  induction ds as [|d ds IH]; intros st calls st' why Hmax Hinv Hrun Hob;
    rewrite rx_loop_unfold in Hrun;
    destruct (loop_guard sig st) as [why0|] eqn:Hg;
    try (injection Hrun as <- <- <-; cbn [samples_received written polled]; lia).
  cbv zeta in Hrun.
  destruct (Z.eqb_spec (d_res d) 0) as [Hres|Hres]; cbn [negb] in Hrun.
  - destruct (rx_loop sig ds (loop_body (with_res (d_res d) (polled st)) d))
      as [[calls' st''] why'] eqn:Hrec.
    injection Hrun as <- <- <-.
    apply Forall_cons in Hob as [Hc Hob]. unfold obeys in Hc. cbn [rx_got rx_num] in Hc.
    specialize (Hc Hres).
    destruct (loop_body_inv max st (d_res d) d Hmax Hinv Hc) as (Hinv' & _ & Hwr).
    rewrite (IH _ _ _ _ Hmax Hinv' Hrec Hob), Hwr.
    cbn [samples_received rx_got]. rewrite Hres. cbn [Z.eqb]. lia.
  - injection Hrun as <- <- <-. cbn [samples_received rx_got written with_res polled].
    destruct (Z.eqb_spec (d_res d) 0); [contradiction|]. lia.
Qed.

(** X8: however the loop is left (stop flag, overrun, exhausted capacity
    or a failed receive call), when the deliveries honoured their requests
    the store is finalized once and the artifact is exactly four bytes per
    sample received long; when the final [ftruncate] fails it keeps its
    pre-allocated [max_size] bytes. *)
Theorem artifact_size_is_bytes_received e opts o w a fn m calls st why :
  main e opts = (o, w) ->
  began_receiving w ->
  getopt_loop opts args_init = Parsed a ->
  fname a = Some fn ->
  map_size m = max_size a ->
  rx_loop (signal_at e) (deliveries e) (loop_init m 0) = (calls, st, Some why) ->
  Forall obeys calls ->
  written st = 4 * samples_received calls /\
  fs w !! fn
  = Some (if truncate_fails e then max_size a else 4 * samples_received calls) /\
  close_file_calls (out w) = 1%nat.
Proof.
  intros Hmain Hb Hargs Hfn Hms Hrun Hob.
  destruct (main_receiving _ _ _ _ Hmain Hb)
    as (a' & fn' & m' & logfile & w0 & Hargs' & Hfn' & (Hsz & Hmod) & Hnz & Hrecv
        & Hopen & Hms' & Hnone & Hfs0 & Hoff & Hcnt & Hsel).
  rewrite Hargs in Hargs'. injection Hargs' as <-.
  rewrite Hfn in Hfn'. injection Hfn' as <-.
  rewrite (loop_init_ext m m') in Hrun by congruence.
  destruct (receive_spec _ _ logfile _ _ _ _ _ Hopen Hrun)
    as (w' & Hrecv' & Hfs & _ & _ & Hcnt').
  rewrite Hrecv in Hrecv'. injection Hrecv' as -> <-.
  assert (Hsz' : is_size_t (map_size m')) by (rewrite Hms'; exact Hsz).
  pose proof (rx_loop_written _ _ _ _ _ _ _ Hsz' (loop_init_inv m' 0 Hsz') Hrun Hob)
    as Hw. cbn [written loop_init] in Hw. rewrite Z.add_0_l in Hw.
  destruct (rx_loop_inv _ _ _ _ _ _ _ Hsz' (loop_init_inv m' 0 Hsz') Hrun Hob)
    as (_ & (_ & _ & Hle & _) & _).
  assert (Hlt : max_size a < 2 ^ 63).
  { destruct (Z.ltb_spec (max_size a) (2 ^ 63)) as [|Hge]; [assumption|].
    exfalso. revert Hoff. unfold to_off_t, to_signed, is_size_t, SIZE_MAX in *.
    rewrite (Z.mod_small (max_size a)) by lia. change (2 ^ (64 - 1)) with (2 ^ 63).
    destruct (Z.ltb_spec (max_size a) (2 ^ 63)); lia. }
  split_and!.
  - exact Hw.
  - rewrite Hfs. unfold truncated. rewrite to_off_t_small by (rewrite Hms' in Hle; lia).
    destruct (truncate_fails e); cbn [orb]; [exact Hfs0|].
    destruct (Z.ltb_spec (written st) 0); [lia|].
    rewrite lookup_insert_eq, Hw. reflexivity.
  - rewrite Hcnt', Hcnt. reflexivity.
Qed.

(** ** More on [parse_fsize] *)

Lemma append_assoc (s t u : string) : (s +:+ t) +:+ u = s +:+ t +:+ u.
Proof.
  induction s as [|c s IH]; [reflexivity|].
  rewrite !append_String, IH. reflexivity.
Qed.

Lemma digits_from_prefix s :
  forall acc c t,
    all_digits s = true ->
    is_digit c = false ->
    Libc.digits_from acc (s +:+ String c t)
    = acc * 10 ^ Z.of_nat (String.length s) + decimal_value s.
Proof.
  induction s as [|d s IH]; intros acc c t Hs Hc;
    rewrite ?append_empty, ?append_String;
    cbn [Libc.digits_from decimal_value String.length].
  - unfold is_digit in Hc. destruct (Libc.digit_value c); [discriminate|].
    change (Z.of_nat 0) with 0. rewrite Z.pow_0_r. lia.
  - simpl in Hs. apply andb_prop in Hs as [Hd Hs].
    rewrite (digit_value_digit _ Hd), (IH _ _ _ Hs Hc).
    rewrite Nat2Z.inj_succ, Z.pow_succ_r by lia. lia.
Qed.

(** X9: only the leading digits and the last character of the argument
    count. Whatever stands between a number and the final M, G or T, as
    long as it does not start with a digit, is skipped without an error,
    so that [1.5G] is read as [1G]. *)
Theorem parse_fsize_ignores_middle s junk c k :
  s <> EmptyString ->
  all_digits s = true ->
  match junk with
  | EmptyString => True
  | String j _ => is_digit j = false
  end ->
  (c = "M"%char /\ k = 1000000) \/
  (c = "G"%char /\ k = 1000000000) \/
  (c = "T"%char /\ k = 1000000000000) ->
  decimal_value s * k <= SIZE_MAX ->
  parse_fsize (s +:+ junk +:+ String c EmptyString) = Some (decimal_value s * k).
Proof.
  intros Hne Hs Hjunk Hc Hfit.
  pose proof (decimal_value_nonneg s Hs) as Hpos.
  assert (Hck : is_digit c = false /\ suffix_mult c = k /\ 1 <= k).
  { destruct Hc as [[-> ->]|[[-> ->]|[-> ->]]];
      (split_and!; [reflexivity | reflexivity | lia]). }
  destruct Hck as (Hnd & Hk & Hk1).
  assert (Hrest : exists c' t, junk +:+ String c EmptyString = String c' t /\
                               is_digit c' = false).
  { destruct junk as [|j junk']; [exists c, EmptyString | exists j, (junk' +:+ String c EmptyString)];
      split; done. }
  destruct Hrest as (c' & t & Hrest & Hnd').
  unfold parse_fsize, Libc.strtoull.
  rewrite <- append_assoc, last_char_app, append_assoc, Hrest, Hk.
  assert (Hsub : Libc.subject (s +:+ String c' t) = (false, decimal_value s)).
  { pose proof (digits_from_prefix s 0 c' t Hs Hnd') as Hv.
    rewrite Z.mul_0_l, Z.add_0_l in Hv. rewrite <- Hv.
    unfold Libc.subject. destruct s as [|d s]; [contradiction|].
    simpl in Hs. apply andb_prop in Hs as [Hd _]. rewrite append_String.
    destruct d as [[] [] [] [] [] [] [] []]; try discriminate Hd; reflexivity. }
  rewrite Hsub. unfold SIZE_MAX, ULLONG_MAX in *.
  destruct (Z.ltb_spec (2 ^ 64 - 1) (decimal_value s)); [nia|].
  f_equal. apply to_size_t_id. unfold is_size_t, SIZE_MAX. nia.
Qed.

(** X10: every size [parse_fsize] returns fits [size_t] and is a
    multiple of 64, hence a whole number of 4-byte samples, also when the
    product wrapped. *)
Theorem parse_fsize_whole_samples arg n :
  parse_fsize arg = Some n -> 0 <= n < 2 ^ 64 /\ n mod 64 = 0 /\ n mod 4 = 0.
Proof.
  unfold parse_fsize. destruct (last_char arg) as [c|]; [|discriminate].
  intros [= <-]. unfold to_size_t, to_unsigned.
  assert (Hm : exists q, suffix_mult c = q * 64).
  { unfold suffix_mult. repeat case_match;
      [exists 15625 | exists 15625000 | exists 15625000000 | exists 0]; reflexivity. }
  destruct Hm as [q ->].
  assert (H64 : (Libc.strtoull arg * (q * 64)) mod 2 ^ 64 mod 64 = 0).
  { rewrite Z.mod_mod_divide by (exists (2 ^ 58); reflexivity).
    rewrite Z.mul_assoc. apply Z_mod_mult. }
  split; [apply Z.mod_pos_bound; lia|]. split; [exact H64|].
  rewrite Z.mod_mod_divide by (exists (2 ^ 62); reflexivity).
  replace (Libc.strtoull arg * (q * 64)) with (Libc.strtoull arg * q * 16 * 4) by lia.
  apply Z_mod_mult.
Qed.

(** ** The statistics display *)

Lemma timercmp_ge_micros a b :
  0 <= tv_usec a < 1000000 -> 0 <= tv_usec b < 1000000 ->
  timercmp_ge a b = true <-> micros b <= micros a.
Proof.
  unfold timercmp_ge, micros. intros Ha Hb.
  destruct (Z.eqb_spec (tv_sec a) (tv_sec b)) as [Heq|Hne].
  - rewrite Z.leb_le. lia.
  - rewrite Z.leb_le. lia.
Qed.

Lemma timeradd_one_second a :
  0 <= tv_usec a < 1000000 ->
  micros (timeradd a one_second) = micros a + 1000000 /\
  0 <= tv_usec (timeradd a one_second) < 1000000 /\
  tv_sec (timeradd a one_second) = tv_sec a + 1.
Proof.
  unfold timeradd, one_second, micros. cbn [tv_sec tv_usec]. intros Ha.
  rewrite Z.add_0_r.
  destruct (Z.leb_spec 1000000 (tv_usec a)); cbn [tv_sec tv_usec]; lia.
Qed.

Lemma show_stats_times logfile t wr s :
  0 <= tv_usec t < 1000000 -> 0 <= tv_usec (tv_next s) < 1000000 ->
  let s' := fst (show_stats logfile t wr s) in
  let l := log_times (snd (show_stats logfile t wr s)) in
  0 <= tv_usec (tv_next s') < 1000000 /\
  micros (tv_next s) <= micros (tv_next s') /\
  (l = [] \/ l = [micros t] /\ micros (tv_next s') = micros t + 1000000) /\
  Forall (fun x => micros (tv_next s) <= x) l.
Proof.
  intros Ht Hs. unfold show_stats.
  destruct (timercmp_ge t (tv_next s)) eqn:Hcmp; cbn [fst snd log_times tv_next].
  - apply timercmp_ge_micros in Hcmp; [|assumption..].
    destruct (timeradd_one_second t Ht) as (Hm & Hu & _).
    destruct (autoscale_float _) as [dr sfx]. destruct (autoscale_float _) as [fv sfx2].
    destruct (negb (tv_sec (tv_last s) =? 0)), logfile; cbn [log_times];
      (refine (conj Hu (conj _ (conj _ _)));
       [ lia | auto | repeat constructor; try (unfold micros in *; lia) ]).
  - refine (conj Hs (conj _ (conj _ _))); [lia | auto | constructor].
Qed.

Lemma stats_run_spacing logfile obs :
  forall s,
    Forall (fun o => 0 <= tv_usec (fst o) < 1000000) obs ->
    0 <= tv_usec (tv_next s) < 1000000 ->
    Sorted second_apart (log_times (snd (stats_run logfile obs s))) /\
    Forall (fun x => micros (tv_next s) <= x) (log_times (snd (stats_run logfile obs s))).
Proof.
  assert (Happ : forall l1 l2, log_times (l1 ++ l2) = log_times l1 ++ log_times l2).
  { induction l1 as [|[] l1 IH]; intros l2; cbn [app log_times]; rewrite ?IH; reflexivity. }
  induction obs as [|[t wr] obs IH]; intros s Hobs Hs; cbn [stats_run].
  - cbn [snd log_times]. split; constructor.
  - apply Forall_cons in Hobs as [Ht Hobs]. cbn [fst] in Ht.
    destruct (show_stats_times logfile t wr s Ht Hs) as (Hu & Hmono & Hl & Hall).
    destruct (show_stats logfile t wr s) as [s1 printed]. cbn [fst snd] in *.
    destruct (IH s1 Hobs Hu) as [Hsorted Hge].
    destruct (stats_run logfile obs s1) as [s2 printed']. cbn [snd] in *.
    rewrite Happ. destruct Hl as [Hl|[Hl Hnext]]; rewrite Hl in *; cbn [app].
    + split; [exact Hsorted|]. eapply Forall_impl; [exact Hge|]. intros x Hx. cbn in Hx. lia.
    + split.
      * constructor; [exact Hsorted|].
        destruct (log_times printed') as [|x l]; constructor.
        apply Forall_cons in Hge as [Hx _]. unfold second_apart. lia.
      * constructor.
        -- apply Forall_cons in Hall as [Hx _]. exact Hx.
        -- eapply Forall_impl; [exact Hge|]. intros x Hx. cbn in Hx. lia.
Qed.

(** X11: the log never gets two lines within one second, and none within
    the first second of the run: with clock readings in normal form, the
    times of successive log lines are at least one second apart, and all
    of them are at least one second after the first pass through the
    loop. The clock need not be monotonic for this. *)
Theorem log_lines_one_second_apart t0 wr0 obs :
  clock_ok t0 ->
  Forall (fun o => clock_ok (fst o)) obs ->
  let lines := log_times (snd (stats_run true ((t0, wr0) :: obs) stats_init)) in
  Sorted second_apart lines /\
  Forall (fun x => micros t0 + 1000000 <= x) lines.
Proof.
  intros [Hsec Hus] Hobs lines. subst lines.
  assert (Hcmp : timercmp_ge t0 (tv_next stats_init) = true).
  { apply timercmp_ge_micros; cbn [stats_init tv_next tv_usec]; [lia..|].
    unfold micros; cbn [tv_sec tv_usec]. lia. }
  destruct (timeradd_one_second t0 Hus) as (Hm & Hu & _).
  pose (s1 := {| tv_last := t0; tv_next := timeradd t0 one_second;
                 written_last := wr0 |}).
  assert (Hrun : stats_run true ((t0, wr0) :: obs) stats_init = stats_run true obs s1).
  { cbn [stats_run]. unfold show_stats. rewrite Hcmp.
    cbn [stats_init tv_last tv_sec Z.eqb negb]. fold s1.
    destruct (stats_run true obs s1) as [s2 printed']. reflexivity. }
  rewrite Hrun.
  destruct (stats_run_spacing true obs s1) as [Hsorted Hge].
  { eapply Forall_impl; [exact Hobs|]. intros o [_ Ho]. exact Ho. }
  { exact Hu. }
  split; [exact Hsorted|].
  eapply Forall_impl; [exact Hge|]. intros x Hx. cbn [s1 tv_next] in Hx. lia.
Qed.

Lemma show_stats_reached logfile t wr s :
  clock_ok t -> stats_reached s -> stats_reached (fst (show_stats logfile t wr s)).
Proof.
  intros Ht Hs. unfold show_stats.
  destruct (timercmp_ge t (tv_next s)); cbn [fst]; [|exact Hs].
  right. cbn [tv_next tv_last]. split; [reflexivity | exact Ht].
Qed.

Lemma stats_run_reached logfile obs :
  forall s,
    Forall (fun o => clock_ok (fst o)) obs ->
    stats_reached s -> stats_reached (fst (stats_run logfile obs s)).
Proof.
  induction obs as [|[t wr] obs IH]; intros s Hobs Hs; cbn [stats_run]; [exact Hs|].
  apply Forall_cons in Hobs as [Ht Hobs]. cbn [fst] in Ht.
  pose proof (show_stats_reached logfile t wr s Ht Hs) as Hs1.
  destruct (show_stats logfile t wr s) as [s1 printed]. cbn [fst] in Hs1.
  specialize (IH s1 Hobs Hs1).
  destruct (stats_run logfile obs s1) as [s2 printed']. exact IH.
Qed.

(** X12: the data rate is never computed over an empty interval. Whenever
    a pass through the block prints a line, after any number of earlier
    passes at proper clock readings, at least one full second has elapsed
    since the sample it is compared with: the interval [tmp] that
    [timersub] computes has [tv_sec >= 1] and [tv_usec] in normal form.
    The first pass of a run prints nothing. *)
Theorem stats_interval_at_least_one_second logfile obs t wr :
  Forall (fun o => clock_ok (fst o)) obs ->
  clock_ok t ->
  let s := fst (stats_run logfile obs stats_init) in
  snd (show_stats logfile t wr s) <> [] ->
  1 <= tv_sec (timersub t (tv_last s)) /\
  0 <= tv_usec (timersub t (tv_last s)) < 1000000 /\
  obs <> [].
Proof.
  intros Hobs Ht s Hprinted.
  assert (Hne : obs <> []).
  { intros ->. subst s. cbn [stats_run fst] in Hprinted. unfold show_stats in Hprinted.
    destruct (timercmp_ge t (tv_next stats_init)); cbn in Hprinted; contradiction. }
  pose proof (stats_run_reached logfile obs stats_init Hobs (or_introl eq_refl)) as Hs.
  fold s in Hs. clearbody s.
  unfold show_stats in Hprinted.
  destruct (timercmp_ge t (tv_next s)) eqn:Hcmp; [|contradiction].
  destruct Hs as [->|[Hnext [Hsec Hus]]]; [contradiction|].
  destruct Ht as [Htsec Htus].
  destruct (timeradd_one_second (tv_last s) Hus) as (Hm & Hu & _).
  rewrite Hnext in Hcmp. apply timercmp_ge_micros in Hcmp; [|assumption..].
  rewrite Hm in Hcmp. unfold micros in Hcmp.
  assert (Helapsed : 1 <= tv_sec (timersub t (tv_last s)) /\
                     0 <= tv_usec (timersub t (tv_last s)) < 1000000).
  { unfold timersub.
    destruct (Z.ltb_spec (tv_usec t - tv_usec (tv_last s)) 0);
      cbn [tv_sec tv_usec]; lia. }
  destruct Helapsed as [H1 H2]. exact (conj H1 (conj H2 Hne)).
Qed.


Lemma show_stats_samples logfile t wr s :
  log_samples (snd (show_stats logfile t wr s)) = [] \/
  log_samples (snd (show_stats logfile t wr s)) = [Z.shiftr wr 2].
Proof.
  unfold show_stats.
  destruct (timercmp_ge t (tv_next s)); cbn [snd log_samples]; [|auto].
  destruct (autoscale_float _) as [dr sfx]. destruct (autoscale_float _) as [fv sfx2].
  destruct (negb (tv_sec (tv_last s) =? 0)), logfile; cbn [log_samples]; auto.
Qed.

Lemma log_samples_app l1 l2 : log_samples (l1 ++ l2) = log_samples l1 ++ log_samples l2.
Proof.
  induction l1 as [|[] l1 IH]; cbn [app log_samples]; rewrite ?IH; reflexivity.
Qed.

Lemma stats_run_samples logfile hi obs :
  forall lo s,
    StronglySorted Z.le (snd <$> obs) ->
    Forall (fun w => lo <= w <= hi) (snd <$> obs) ->
    StronglySorted Z.le (log_samples (snd (stats_run logfile obs s))) /\
    Forall (fun n => lo / 4 <= n <= hi / 4) (log_samples (snd (stats_run logfile obs s))).
Proof.
  induction obs as [|[t wr] obs IH]; intros lo s Hsorted Hall; cbn [stats_run].
  - cbn [snd log_samples]. split; constructor.
  - rewrite fmap_cons in Hsorted, Hall. cbn [snd] in Hsorted, Hall.
    apply StronglySorted_cons in Hsorted as [Hhd Hsorted].
    apply Forall_cons in Hall as [Hwr Hall].
    pose proof (show_stats_samples logfile t wr s) as Hs.
    destruct (show_stats logfile t wr s) as [s1 printed]. cbn [snd] in Hs.
    assert (Hall' : Forall (fun w => wr <= w <= hi) (snd <$> obs)).
    { rewrite Forall_forall in Hhd, Hall. rewrite Forall_forall.
      intros w Hw. specialize (Hhd w Hw). specialize (Hall w Hw). lia. }
    destruct (IH lo s1 Hsorted Hall) as [Hs1 Ha1].
    destruct (IH wr s1 Hsorted Hall') as [_ Ha2].
    destruct (stats_run logfile obs s1) as [s2 printed']. cbn [snd] in *.
    rewrite log_samples_app.
    destruct Hs as [->| ->]; cbn [app]; [split; assumption|].
    rewrite Z.shiftr_div_pow2 by lia. change (2 ^ 2) with 4. split.
    + constructor; [exact Hs1|].
      eapply Forall_impl; [exact Ha2|]. intros n Hn. cbn in Hn. lia.
    + constructor; [|exact Ha1].
      split; apply Z.div_le_mono; lia.
Qed.

Lemma observations_written max sig ds :
  forall st calls st' why clock,
    is_size_t max ->
    loop_inv max st ->
    rx_loop sig ds st = (calls, st', why) ->
    Forall obeys calls ->
    StronglySorted Z.le (snd <$> observations clock calls) /\
    Forall (fun w => written st <= w <= max) (snd <$> observations clock calls).
Proof.
  induction ds as [|d ds IH]; intros st calls st' why clock Hmax Hinv Hrun Hob;
    rewrite rx_loop_unfold in Hrun;
    destruct (loop_guard sig st) as [why0|] eqn:Hg;
    try (injection Hrun as <- <- <-; cbn [observations fmap list_fmap];
         split; constructor).
  cbv zeta in Hrun.
  destruct (Z.eqb_spec (d_res d) 0) as [Hres|Hres]; cbn [negb] in Hrun.
  - destruct (rx_loop sig ds (loop_body (with_res (d_res d) (polled st)) d))
      as [[calls' st''] why'] eqn:Hrec.
    injection Hrun as <- <- <-.
    apply Forall_cons in Hob as [Hc Hob]. unfold obeys in Hc. cbn [rx_got rx_num] in Hc.
    specialize (Hc Hres).
    destruct (loop_body_inv max st (d_res d) d Hmax Hinv Hc) as (Hinv' & _ & Hwr).
    cbn [observations rx_got]. rewrite Hres. cbn [Z.eqb].
    destruct clock as [|t clock]; [cbn; split; constructor|].
    destruct (IH _ _ _ _ clock Hmax Hinv' Hrec Hob) as [Hs Ha].
    rewrite fmap_cons. cbn [snd].
    assert (Hwa : written_after
                    {| rx_at := polled st; rx_num := MIN (remaining st) NUM_SAMPLES;
                       rx_got := d |}
                  = written (loop_body (with_res (d_res d) (polled st)) d))
      by reflexivity.
    rewrite Hwa. destruct Hinv' as (_ & _ & Hle & _).
    split.
    + constructor; [exact Hs|].
      eapply Forall_impl; [exact Ha|]. intros w Hw. cbv beta in Hw. lia.
    + constructor; [lia|].
      eapply Forall_impl; [exact Ha|]. intros w Hw. cbv beta in Hw. lia.
  - injection Hrun as <- <- <-. cbn [observations rx_got].
    destruct (Z.eqb_spec (d_res d) 0); [contradiction|].
    cbn. split; constructor.
Qed.

(** X13: the sample counter in the log never runs backwards and never
    exceeds the capacity. Over a run of the loop whose deliveries honour
    their requests, whatever the clock says, the sample counts written
    to the log increase weakly and lie between 0 and [max_size / 4]. *)
Theorem logged_samples_monotone sig ds m r calls st why clock :
  is_size_t (map_size m) ->
  rx_loop sig ds (loop_init m r) = (calls, st, why) ->
  Forall obeys calls ->
  let logged :=
    log_samples (snd (stats_run true (observations clock calls) stats_init)) in
  StronglySorted Z.le logged /\
  Forall (fun n => 0 <= n <= map_size m / 4) logged.
Proof.
  intros Hmax Hrun Hob logged. subst logged.
  destruct (observations_written _ _ _ _ _ _ _ clock Hmax (loop_init_inv m r Hmax) Hrun Hob)
    as [Hs Ha].
  cbn [written loop_init] in Ha.
  destruct (stats_run_samples true (map_size m) _ 0 stats_init Hs Ha) as [Hs' Ha'].
  split; [exact Hs'|]. exact Ha'.
Qed.

(** ** The option loop *)

Lemma getopt_loop_no_fname opts :
  forall a,
    Forall (fun o => is_opt_f o = false) opts ->
    getopt_loop opts a = BadOption \/ getopt_loop opts a = BadRead \/
    exists a', getopt_loop opts a = Parsed a' /\ fname a' = fname a.
Proof.
  induction opts as [|o opts IH]; intros a Hno; cbn [getopt_loop].
  - right. right. eauto.
  - apply Forall_cons in Hno as [Ho Hno].
    destruct o; try discriminate Ho; auto;
      try (destruct (parse_fsize optarg); [|auto]);
      match goal with
      | |- context [getopt_loop opts ?a1] =>
          destruct (IH a1 Hno) as [->|[->|(a' & -> & Ha')]];
            [auto | auto | right; right; eauto]
      end.
Qed.

(** X14: of several [-s] options the last one counts: the capacity of
    the run is the parsed argument of the last [-s], whatever earlier ones
    said. *)
Theorem last_option_wins pre post optarg a :
  getopt_loop (pre ++ opt_s optarg :: post) args_init = Parsed a ->
  Forall (fun o => is_opt_s o = false) post ->
  parse_fsize optarg = Some (max_size a).
Proof.
  intros Hrun Hpost. rewrite getopt_loop_app in Hrun.
  destruct (getopt_loop pre args_init) as [a0| |]; try discriminate.
  cbn [getopt_loop] in Hrun.
  destruct (parse_fsize optarg) as [n|]; [|discriminate].
  match type of Hrun with
  | getopt_loop post ?a1 = _ =>
      destruct (getopt_loop_no_size post a1 Hpost) as [Hbad|(a' & Hok & Hsz)]
  end.
  - rewrite Hbad in Hrun. discriminate.
  - rewrite Hok in Hrun. injection Hrun as <-. rewrite Hsz. reflexivity.
Qed.

(** X15: of several [-f] options the last one names the target: [fname] is
    the argument of the last [-f], whatever the options around it are. *)
Lemma last_filename_wins pre post optarg a :
  getopt_loop (pre ++ opt_f optarg :: post) args_init = Parsed a ->
  Forall (fun o => is_opt_f o = false) post ->
  fname a = Some optarg.
Proof.
  intros Hrun Hpost. rewrite getopt_loop_app in Hrun.
  destruct (getopt_loop pre args_init) as [a0| |]; try discriminate.
  cbn [getopt_loop] in Hrun.
  match type of Hrun with
  | getopt_loop post ?a1 = _ =>
      destruct (getopt_loop_no_fname post a1 Hpost) as [Hbad|[Hbad|(a' & Hok & Hf)]]
  end.
  - rewrite Hbad in Hrun. discriminate.
  - rewrite Hbad in Hrun. discriminate.
  - rewrite Hok in Hrun. injection Hrun as <-. rewrite Hf. reflexivity.
Qed.

(** X16: without [-f] the program does nothing but print the usage text
    and return 1, whatever the other options are, as long as each [-s]
    argument is not empty: no file is created and no device call made. *)
Theorem missing_filename_is_usage_error e opts :
  Forall (fun o => is_opt_f o = false) opts ->
  getopt_loop opts args_init <> BadRead ->
  exists w,
    main e opts = (Exited 1, w) /\
    out w = [ev_usage] /\ fs w = fs0 e /\ fds w = ∅.
Proof.
  intros Hno Hread. exists (usage (init_world e)). split; [|done].
  unfold main.
  destruct (getopt_loop_no_fname opts args_init Hno) as [->|[Hbad|(a' & -> & Ha')]].
  - reflexivity.
  - contradiction.
  - cbn [fname args_init] in Ha'. rewrite Ha'. reflexivity.
Qed.

(** ** The shape of the trace from the loop on *)

Lemma close_file_trace e m wr w w' :
  close_file e m wr w = Some w' ->
  exists l, out w' = out w ++ l /\ forallb is_shutdown_event l = true.
Proof.
  unfold close_file.
  destruct (negb (0 <=? fd m)); [discriminate|].
  destruct (map_base m); try discriminate.
  destruct (0 <? wr) eqn:H1, (msync_fails e) eqn:H2, (truncate_fails e) eqn:H3,
    (to_off_t wr <? 0) eqn:H4, (fds w !! fd m) eqn:H5;
    unfold Sys.msync, Sys.ftruncate, Sys.munmap, Sys.close, perror;
    cbn -[to_off_t]; rewrite ?H5, ?H4; cbn -[to_off_t];
    intros [= <-]; cbn [out emit]; rewrite <- ?app_assoc;
    (eexists; split; [reflexivity|reflexivity]).
Qed.

Lemma cleanup_trace e m logfile wr r p w o w' :
  cleanup e m logfile wr r p w = (o, w') ->
  exists l, out w' = out w ++ l /\ forallb is_shutdown_event l = true.
Proof.
  unfold cleanup.
  destruct (close_file e m wr w) as [w1|] eqn:Hc.
  - destruct (close_file_trace _ _ _ _ _ Hc) as (l & Hout & Hl).
    destruct (autoscale_float (float_of_Z wr)) as [fv suffix].
    destruct logfile; intros [= <- <-]; unfold emit; cbn [out];
      rewrite Hout, <- ?app_assoc; (eexists; split; [reflexivity|]);
      rewrite forallb_app, Hl; reflexivity.
  - intros [= <- <-]. exists []. rewrite app_nil_r. done.
Qed.

Lemma forallb_rx_events p calls :
  (forall c, p (rx_event c) = true) -> forallb p (rx_event <$> calls) = true.
Proof.
  intros Hp. induction calls as [|c calls IH]; csimpl; [reflexivity|].
  rewrite Hp, IH. reflexivity.
Qed.

Lemma receive_trace e m logfile r w o w' :
  receive e m logfile r w = (o, w') ->
  exists calls l,
    out w' = out w ++ (rx_event <$> calls) ++ l /\
    forallb is_shutdown_event l = true.
Proof.
  unfold receive.
  destruct (rx_loop (signal_at e) (deliveries e) (loop_init m r)) as [[calls st] [why|]].
  - unfold call_dev. intros Hrun.
    destruct (cleanup_trace _ _ _ _ _ _ _ _ _ Hrun) as (l & Hout & Hl).
    exists calls. rewrite Hout.
    destruct (negb (overrun st =? 0)); unfold emit; cbn [out];
      rewrite <- ?app_assoc; (eexists; split; [reflexivity|]);
      cbn [app forallb is_shutdown_event String.eqb Ascii.eqb Bool.eqb andb];
      exact Hl.
  - intros [= <- <-]. exists calls, []. cbn [out]. rewrite app_nil_r. done.
Qed.

Lemma existsb_none (p q : event -> bool) l :
  (forall ev, q ev = true -> p ev = false) ->
  forallb q l = true -> existsb p l = false.
Proof.
  intros Hpq. induction l as [|ev l IH]; cbn [forallb existsb]; [reflexivity|].
  intros H. apply andb_prop in H as [Hq Hl]. rewrite (Hpq ev Hq), (IH Hl). reflexivity.
Qed.

Lemma select_none (p q : event -> bool) l :
  (forall ev, q ev = true -> p ev = false) ->
  forallb q l = true -> select p l = [].
Proof.
  intros Hpq. induction l as [|ev l IH]; cbn [forallb select]; [reflexivity|].
  intros H. apply andb_prop in H as [Hq Hl]. rewrite (Hpq ev Hq). exact (IH Hl).
Qed.

Lemma shutdown_not_cleanup_message ev :
  is_shutdown_event ev = true -> is_cleanup_message ev = false.
Proof.
  destruct ev as [| | msg | | | | | | | | | c r | | | | |]; try reflexivity; try discriminate.
  cbn [is_shutdown_event is_cleanup_message]. intros H. apply String.eqb_eq in H.
  subst msg. reflexivity.
Qed.


(** ** The choice of the gain *)











(** ** A set-up step that fails after the device was opened *)

Lemma cleanup_message_rx_events calls :
  existsb is_cleanup_message (rx_event <$> calls) = false.
Proof. induction calls as [|c calls IH]; csimpl; [reflexivity|]. exact IH. Qed.

Lemma receive_no_cleanup_message e m logfile r w o w' :
  receive e m logfile r w = (o, w') ->
  existsb is_cleanup_message (out w') = existsb is_cleanup_message (out w).
Proof.
  intros Hrun. destruct (receive_trace _ _ _ _ _ _ _ Hrun) as (calls & l & Hout & Hl).
  rewrite Hout, !existsb_app, cleanup_message_rx_events,
    (existsb_none _ _ _ shutdown_not_cleanup_message Hl).
  rewrite !orb_false_r. reflexivity.
Qed.

(** Normalizes what is known about the set-up messages of a trace built by
    appending events. *)
Ltac setup_norm :=
  unfold perror, usage, emit in *;
  cbn [out fs fds next_fd] in *;
  rewrite ?existsb_app in *;
  cbn [existsb is_cleanup_message String.eqb Ascii.eqb Bool.eqb orb andb app
       init_world out] in *;
  rewrite ?orb_false_r in *.

(** Case analysis on the status of one set-up call when the run is known to
    have printed one of the messages that precede [goto cleanup]. *)
Ltac status_setup c Hopen Hw :=
  let Heq := fresh "Heq" in
  destruct (c =? 0) eqn:Heq; cbn [negb fst snd]; rewrite ?Heq; cbn [negb fst snd];
  [ apply Z.eqb_eq in Heq
  | let Hrun := fresh "Hrun" in
    let Hf := fresh "Hf" in
    intros Hrun Hf;
    first
      [ injection Hrun as <- <-; exfalso; setup_norm; congruence
      | match type of Hrun with
        | cleanup ?e ?m ?l ?wr ?r ?p ?w0 = _ =>
            let w1 := fresh "w1" in
            let k := fresh "k" in
            let Hc := fresh "Hc" in
            let Hout := fresh "Hout" in
            let Hm := fresh "Hm" in
            let Hrx := fresh "Hrx" in
            let Hst := fresh "Hst" in
            let Hfs := fresh "Hfs" in
            destruct (cleanup_spec e m l wr r p w0 _ Hopen)
              as (w1 & k & Hc & Hout & (Hm & Hrx & Hst) & Hfs);
            rewrite Hc in Hrun; injection Hrun as <- <-;
            rewrite Hout, Hfs, ?Heq; unfold emit; cbn [out fs orb];
            rewrite !select_app, Hm, Hrx;
            cbn [select is_munmap is_sync_rx app]; rewrite ?app_nil_r;
            split_and!; reflexivity
        end ] ].

Lemma device_failed_setup e a m logfile w fn o w' :
  device e a m logfile w = (o, w') ->
  mf_open m fn w ->
  existsb is_cleanup_message (out w) = false ->
  existsb is_cleanup_message (out w') = true ->
  o = Exited (if stop_flag (signal_at e) 0 then 0 else 1) /\
  select is_munmap (out w') = select is_munmap (out w) ++ [ev_munmap (map_size m)] /\
  select is_sync_rx (out w') = select is_sync_rx (out w) /\
  fs w' = truncated e fn 0 (fs w).
Proof.
  intros Hrun Hopen Hw. revert Hrun. unfold device, call_dev.
  destruct (manual_gain a =? INT_MIN); cbn [negb].
  - status_setup (dev_status e bladerf_open) Hopen Hw.
    status_setup (dev_status e (bladerf_set_frequency DEFAULT_FREQ)) Hopen Hw.
    status_setup (dev_status e (bladerf_set_sample_rate DEFAULT_SAMPLERATE)) Hopen Hw.
    status_setup (dev_status e (bladerf_set_bandwidth DEFAULT_BANDWIDTH)) Hopen Hw.
    status_setup (dev_status e (bladerf_set_gain_mode false)) Hopen Hw.
    status_setup (dev_status e (bladerf_sync_config NUM_BUFFERS NUM_SAMPLES
                                  NUM_TRANSFERS TIMEOUT_MS)) Hopen Hw.
    status_setup (dev_status e (bladerf_enable_module true)) Hopen Hw.
    intros Hrun Hf. exfalso.
    rewrite (receive_no_cleanup_message _ _ _ _ _ _ _ Hrun) in Hf.
    setup_norm. congruence.
  - status_setup (dev_status e bladerf_open) Hopen Hw.
    status_setup (dev_status e (bladerf_set_frequency DEFAULT_FREQ)) Hopen Hw.
    status_setup (dev_status e (bladerf_set_sample_rate DEFAULT_SAMPLERATE)) Hopen Hw.
    status_setup (dev_status e (bladerf_set_bandwidth DEFAULT_BANDWIDTH)) Hopen Hw.
    status_setup (dev_status e (bladerf_set_gain_mode true)) Hopen Hw.
    status_setup (dev_status e (bladerf_set_gain (manual_gain a))) Hopen Hw.
    status_setup (dev_status e (bladerf_sync_config NUM_BUFFERS NUM_SAMPLES
                                  NUM_TRANSFERS TIMEOUT_MS)) Hopen Hw.
    status_setup (dev_status e (bladerf_enable_module true)) Hopen Hw.
    intros Hrun Hf. exfalso.
    rewrite (receive_no_cleanup_message _ _ _ _ _ _ _ Hrun) in Hf.
    setup_norm. congruence.
Qed.

Lemma create_file_no_cleanup_message e fn n w r m w' :
  create_file e fn n w = (r, m, w') ->
  existsb is_cleanup_message (out w') = existsb is_cleanup_message (out w).
Proof.
  unfold create_file, Sys.open, Sys.create_excl, Sys.ftruncate, Sys.mmap, Sys.close.
  destruct (fs w !! fn); simpl; [intros [= <- <- <-]; setup_norm; reflexivity|].
  destruct (open_fails e); simpl; [intros [= <- <- <-]; setup_norm; reflexivity|].
  destruct (next_fd w <? 0); simpl; [intros [= <- <- <-]; setup_norm; reflexivity|].
  rewrite lookup_insert_eq.
  destruct (presize_fails e), (to_off_t n <? 0); simpl;
    try (intros [= <- <- <-]; setup_norm; reflexivity).
  destruct (mmap_fails e || (n =? 0)); simpl; intros [= <- <- <-];
    setup_norm; reflexivity.
Qed.

Lemma capture_failed_setup e a fn logfile w o w' :
  capture e a fn logfile w = (o, w') ->
  is_size_t (max_size a) ->
  0 <= next_fd w ->
  existsb is_cleanup_message (out w) = false ->
  existsb is_cleanup_message (out w') = true ->
  o = Exited (if stop_flag (signal_at e) 0 then 0 else 1) /\
  close_file_calls (out w') = S (close_file_calls (out w)) /\
  select is_sync_rx (out w') = select is_sync_rx (out w) /\
  fs w !! fn = None /\
  fs w' = truncated e fn 0 (<[fn := max_size a]> (fs w)).
Proof.
  unfold capture. intros Hrun Hsize Hfd Hw Hf.
  destruct (create_file e fn (max_size a) w) as [[r m] w1] eqn:Hcf.
  pose proof (create_file_no_cleanup_message _ _ _ _ _ _ _ Hcf) as Hmsg.
  destruct (Z.eqb_spec r 0) as [->|Hr]; cbn [negb] in Hrun.
  - destruct (create_file_ok _ _ _ _ _ _ Hcf Hsize Hfd)
      as (Hopen & Hms & Hnone & Hfs & Hoff & Hnb & Hcnt & Hsel).
    destruct (device_failed_setup e a m logfile
                (emit ev_sigaction (emit ev_sigaction w1)) fn o w' Hrun)
      as (Ho & Hmun & Hrx & Hfs'); [exact Hopen | | exact Hf |].
    { setup_norm. rewrite Hmsg. exact Hw. }
    unfold emit in Hmun, Hrx, Hfs'. cbn [out fs] in Hmun, Hrx, Hfs'.
    rewrite !select_app in Hmun, Hrx. cbn [select is_munmap is_sync_rx] in Hmun, Hrx.
    rewrite !app_nil_r in Hmun, Hrx.
    unfold close_file_calls in *. rewrite Hmun, length_app, Hcnt, Hrx, Hfs', Hfs, Hsel.
    cbn [length]. split_and!; try done. lia.
  - injection Hrun as <- <-. rewrite Hmsg in Hf. congruence.
Qed.

(** X18: a run that printed one of the four messages that precede
    [goto cleanup] (frequency, sample rate or bandwidth, gain mode, gain
    value, enabling the receiver) had complete arguments and a fresh target;
    it calls [close_file] exactly once and never calls the receive function;
    the artifact is empty afterwards, or still has its pre-allocated size
    when the final [ftruncate] fails; and [main] returns 1, or 0 when the
    stop signal arrived before the return statement reads the flag. *)
Theorem failed_setup_finalizes e opts o w :
  main e opts = (o, w) ->
  failed_setup w ->
  exists a fn,
    getopt_loop opts args_init = Parsed a /\ fname a = Some fn /\
    o = Exited (if stop_flag (signal_at e) 0 then 0 else 1) /\
    close_file_calls (out w) = 1%nat /\
    select is_sync_rx (out w) = [] /\
    fs0 e !! fn = None /\
    fs w !! fn = Some (if truncate_fails e then max_size a else 0).
Proof.
  unfold main, failed_setup. intros Hrun Hf.
  destruct (getopt_loop opts args_init) as [a| |] eqn:Hargs;
    try (injection Hrun as <- <-; setup_norm; discriminate).
  pose proof (getopt_loop_size_ok _ _ _ args_init_size_ok Hargs) as Hok.
  destruct (fname a) as [fn|] eqn:Hfn;
    [|injection Hrun as <- <-; setup_norm; discriminate].
  destruct (max_size a =? 0);
    [injection Hrun as <- <-; setup_norm; discriminate|].
  assert (Hlook : forall files : gmap string Z,
    truncated e fn 0 (<[fn := max_size a]> files) !! fn
    = Some (if truncate_fails e then max_size a else 0)).
  { intros files. unfold truncated.
    destruct (truncate_fails e); cbn [orb]; [apply lookup_insert_eq|].
    change (to_off_t 0) with 0. cbn [Z.ltb Z.compare]. apply lookup_insert_eq. }
  exists a, fn.
  destruct (log_fname a) as [path|].
  - unfold Sys.fopen_wx, Sys.create_excl in Hrun. simpl in Hrun.
    destruct (fs0 e !! path) eqn:Hpath; simpl in Hrun;
      [injection Hrun as <- <-; setup_norm; discriminate|].
    destruct (fopen_fails e); simpl in Hrun;
      [injection Hrun as <- <-; setup_norm; discriminate|].
    destruct (capture_failed_setup _ _ _ _ _ _ _ Hrun) as (Ho & Hmun & Hrx & Hnone & Hfs);
      [apply Hok | simpl; lia | reflexivity | exact Hf |].
    simpl in Hmun, Hrx, Hnone, Hfs.
    assert (fn <> path) by (intros ->; rewrite lookup_insert_eq in Hnone; done).
    rewrite lookup_insert_ne in Hnone by done.
    rewrite Hmun, Hrx, Hfs, Hlook. split_and!; done.
  - destruct (capture_failed_setup _ _ _ _ _ _ _ Hrun) as (Ho & Hmun & Hrx & Hnone & Hfs);
      [apply Hok | simpl; lia | reflexivity | exact Hf |].
    simpl in Hmun, Hrx, Hnone, Hfs.
    rewrite Hmun, Hrx, Hfs, Hlook. split_and!; done.
Qed.

(** ** The log file *)

(** X19: with complete arguments and [-l path], a log path that exists, or
    that [fopen] cannot create, ends the run at once: [main] returns -1
    after [perror], the artifact is not created, no file changes and
    nothing else is called. *)
Theorem existing_log_is_refused e opts a fn path :
  getopt_loop opts args_init = Parsed a ->
  fname a = Some fn ->
  max_size a <> 0 ->
  log_fname a = Some path ->
  is_Some (fs0 e !! path) \/ fopen_fails e = true ->
  exists w,
    main e opts = (Exited (-1), w) /\
    fs w = fs0 e /\
    out w = [ev_fopen path false; ev_perror "logfile fopen"].
Proof.
  intros Hargs Hfn Hnz Hlog Hbad. unfold main. rewrite Hargs, Hfn, Hlog.
  destruct (Z.eqb_spec (max_size a) 0); [contradiction|].
  unfold Sys.fopen_wx, Sys.create_excl; cbn [fs init_world].
  destruct (fs0 e !! path) eqn:Hpath.
  - eexists. split_and!; reflexivity.
  - destruct Hbad as [[? ?]| ->]; [discriminate|].
    eexists. split_and!; reflexivity.
Qed.

(** X20: the log is created before the artifact. With a fresh log path that
    [fopen] creates, a target that exists already, or that is the log path
    itself, makes [create_file] fail: [main] returns -1 without calling
    libbladeRF, and the only change to the files is the empty log left
    behind. *)
Theorem log_is_created_before_artifact e opts a fn path :
  getopt_loop opts args_init = Parsed a ->
  fname a = Some fn ->
  max_size a <> 0 ->
  log_fname a = Some path ->
  fs0 e !! path = None ->
  fopen_fails e = false ->
  fn = path \/ is_Some (fs0 e !! fn) ->
  exists w,
    main e opts = (Exited (-1), w) /\
    fs w = <[path := 0]> (fs0 e) /\
    existsb is_dev_event (out w) = false.
Proof.
  intros Hargs Hfn Hnz Hlog Hpath Hfopen Hbad. unfold main. rewrite Hargs, Hfn, Hlog.
  destruct (Z.eqb_spec (max_size a) 0); [contradiction|].
  unfold Sys.fopen_wx, Sys.create_excl; cbn [fs init_world].
  rewrite Hpath, Hfopen. cbn [negb Z.leb Z.compare].
  assert (Hex : is_Some (<[path := 0]> (fs0 e) !! fn)).
  { destruct Hbad as [->|[sz Hsz]]; [rewrite lookup_insert_eq; eauto|].
    destruct (decide (path = fn)) as [->|Hne];
      [rewrite lookup_insert_eq | rewrite lookup_insert_ne by done]; eauto. }
  destruct Hex as [sz Hsz].
  unfold capture, create_file, Sys.open, Sys.create_excl, emit, perror, emit.
  cbn [fs fds next_fd out]. rewrite Hsz. cbn [Z.ltb Z.compare negb].
  eexists. split_and!; reflexivity.
Qed.

(** ** The further properties at concrete runs *)

Lemma create_file_succeeds_iff_witness :
  (fst (fst (create_file (quiet_env [] None) "capture.iq" 1000000
               (init_world (quiet_env [] None)))) = 0 <->
   fs (init_world (quiet_env [] None)) !! "capture.iq" = None /\
   open_fails (quiet_env [] None) = false /\
   presize_fails (quiet_env [] None) = false /\
   mmap_fails (quiet_env [] None) = false /\ 1000000 <> 0 /\ 1000000 < 2 ^ 63) /\
  (fst (fst (create_file (quiet_env [] None) "capture.iq" 1000000
               (init_world (quiet_env [] None)))) = 0 ->
   0 <= fd (snd (fst (create_file (quiet_env [] None) "capture.iq" 1000000
                        (init_world (quiet_env [] None))))) /\
   map_base (snd (fst (create_file (quiet_env [] None) "capture.iq" 1000000
                         (init_world (quiet_env [] None))))) = Mapped 0 /\
   map_size (snd (fst (create_file (quiet_env [] None) "capture.iq" 1000000
                         (init_world (quiet_env [] None))))) = 1000000 /\
   fds (snd (create_file (quiet_env [] None) "capture.iq" 1000000
               (init_world (quiet_env [] None))))
   !! fd (snd (fst (create_file (quiet_env [] None) "capture.iq" 1000000
                      (init_world (quiet_env [] None))))) = Some "capture.iq" /\
   fs (snd (create_file (quiet_env [] None) "capture.iq" 1000000
              (init_world (quiet_env [] None)))) !! "capture.iq" = Some 1000000).
Proof.
  apply (create_file_succeeds_iff (quiet_env [] None) "capture.iq" 1000000
           (init_world (quiet_env [] None))).
  - vm_compute. split; discriminate.
  - vm_compute. discriminate.
Defined.

Lemma create_file_failure_witness :
  fst (fst (create_file existing_target_env "capture.iq" 1000000
              (init_world existing_target_env))) = -1 /\
  snd (fst (create_file existing_target_env "capture.iq" 1000000
              (init_world existing_target_env))) = mf_cleared /\
  fds (snd (create_file existing_target_env "capture.iq" 1000000
              (init_world existing_target_env)))
  = fds (init_world existing_target_env) /\
  (forall p, p <> "capture.iq" ->
     fs (snd (create_file existing_target_env "capture.iq" 1000000
                (init_world existing_target_env))) !! p
     = fs (init_world existing_target_env) !! p) /\
  fs (snd (create_file existing_target_env "capture.iq" 1000000
             (init_world existing_target_env))) !! "capture.iq" =
  match fs (init_world existing_target_env) !! "capture.iq" with
  | Some sz => Some sz
  | None =>
      if open_fails existing_target_env then None
      else if presize_fails existing_target_env || (2 ^ 63 <=? 1000000) then Some 0
      else Some 1000000
  end.
Proof.
  apply (create_file_failure existing_target_env "capture.iq" 1000000
           (init_world existing_target_env)).
  - vm_compute. split; discriminate.
  - vm_compute. discriminate.
  - reflexivity.
  - vm_compute. discriminate.
Defined.

Lemma close_file_releases_witness :
  exists w' l,
    close_file (quiet_env [] None) mf_1M 400 mapped_world = Some w' /\
    out w' = out mapped_world ++ l ++ [ev_munmap (map_size mf_1M); ev_close (fd mf_1M)] /\
    select is_msync l
    = (if 0 <? 400
       then [ev_msync 400 (if msync_fails (quiet_env [] None) then -1 else 0)]
       else []) /\
    select is_munmap l = [] /\
    fds w' = delete (fd mf_1M) (fds mapped_world) /\
    fs w' = truncated (quiet_env [] None) "capture.iq" 400 (fs mapped_world).
Proof.
  apply (close_file_releases (quiet_env [] None) mf_1M 400 mapped_world "capture.iq").
  vm_compute. split; [discriminate|split; reflexivity].
Defined.

Lemma rx_loop_terminates_witness :
  (exists reason, snd single_samples_run = Some reason) /\
  Z.of_nat (length (fst (fst single_samples_run))) <= map_size mf_16 / 4.
Proof.
  apply (rx_loop_terminates None [block 1; block 1; block 1; block 1] mf_16 0
           (fst (fst single_samples_run)) (snd (fst single_samples_run))
           (snd single_samples_run)).
  - vm_compute. split; discriminate.
  - vm_compute. reflexivity.
  - repeat constructor; unfold obeys; vm_compute; intros; discriminate.
  - repeat constructor; unfold progresses; vm_compute; intros; discriminate.
  - vm_compute. discriminate.
Defined.

Lemma rx_loop_spins_on_empty_deliveries_witness :
  exists calls st,
    rx_loop None (replicate 3 (block 0)) (loop_init mf_1M 0) = (calls, st, None) /\
    length calls = 3%nat /\ written st = 0 /\ remaining st = map_size mf_1M / 4.
Proof.
  apply (rx_loop_spins_on_empty_deliveries 3 mf_1M 0).
  - vm_compute. split; discriminate.
  - vm_compute. discriminate.
Defined.

Lemma rx_loop_stops_after_signal_witness :
  (length (fst (fst signal_run)) <= 1)%nat /\
  ((1 <= length [block 1; block 1])%nat -> exists reason, snd signal_run = Some reason).
Proof.
  apply (rx_loop_stops_after_signal 1 [block 1; block 1] mf_16 0
           (fst (fst signal_run)) (snd (fst signal_run)) (snd signal_run)).
  vm_compute. reflexivity.
Defined.

Lemma artifact_size_is_bytes_received_witness :
  written (snd (fst source_error_run)) = 4 * samples_received (fst (fst source_error_run)) /\
  fs (snd (main source_error_env cli_1M)) !! "capture.iq"
  = Some (if truncate_fails source_error_env then max_size args_1M
          else 4 * samples_received (fst (fst source_error_run))) /\
  close_file_calls (out (snd (main source_error_env cli_1M))) = 1%nat.
Proof.
  apply (artifact_size_is_bytes_received source_error_env cli_1M
           (fst (main source_error_env cli_1M)) (snd (main source_error_env cli_1M))
           args_1M "capture.iq" mf_1M (fst (fst source_error_run))
           (snd (fst source_error_run)) source_error).
  - vm_compute. reflexivity.
  - vm_compute. reflexivity.
  - reflexivity.
  - reflexivity.
  - reflexivity.
  - vm_compute. reflexivity.
  - repeat constructor; unfold obeys; vm_compute; intros; discriminate.
Defined.

Lemma parse_fsize_ignores_middle_witness :
  parse_fsize ("1" +:+ ".5" +:+ String "G" EmptyString)
  = Some (decimal_value "1" * 1000000000).
Proof.
  apply (parse_fsize_ignores_middle "1" ".5" "G"%char 1000000000).
  - discriminate.
  - reflexivity.
  - reflexivity.
  - right. left. split; reflexivity.
  - vm_compute. discriminate.
Defined.

Lemma parse_fsize_whole_samples_witness :
  0 <= 10000000 < 2 ^ 64 /\ 10000000 mod 64 = 0 /\ 10000000 mod 4 = 0.
Proof.
  apply (parse_fsize_whole_samples "10M" 10000000).
  vm_compute. reflexivity.
Defined.

Lemma log_lines_one_second_apart_witness :
  Sorted second_apart
    (log_times (snd (stats_run true ((clock_at 100 0, 0) :: four_passes) stats_init))) /\
  Forall (fun x => micros (clock_at 100 0) + 1000000 <= x)
    (log_times (snd (stats_run true ((clock_at 100 0, 0) :: four_passes) stats_init))).
Proof.
  apply (log_lines_one_second_apart (clock_at 100 0) 0 four_passes).
  - unfold clock_ok. simpl. lia.
  - repeat (constructor; [unfold clock_ok; simpl; lia|]). constructor.
Defined.

Lemma stats_interval_at_least_one_second_witness :
  1 <= tv_sec (timersub (clock_at 101 5)
                 (tv_last (fst (stats_run true [(clock_at 100 0, 0)] stats_init)))) /\
  0 <= tv_usec (timersub (clock_at 101 5)
                  (tv_last (fst (stats_run true [(clock_at 100 0, 0)] stats_init))))
  < 1000000 /\
  [(clock_at 100 0, 0)] <> [].
Proof.
  apply (stats_interval_at_least_one_second true [(clock_at 100 0, 0)]
           (clock_at 101 5) 400).
  - repeat (constructor; [unfold clock_ok; simpl; lia|]). constructor.
  - unfold clock_ok. simpl. lia.
  - vm_compute. discriminate.
Defined.

Lemma logged_samples_monotone_witness :
  StronglySorted Z.le
    (log_samples
       (snd (stats_run true
               (observations [clock_at 100 0; clock_at 101 0] (fst (fst overrun_run)))
               stats_init))) /\
  Forall (fun n => 0 <= n <= map_size mf_1M / 4)
    (log_samples
       (snd (stats_run true
               (observations [clock_at 100 0; clock_at 101 0] (fst (fst overrun_run)))
               stats_init))).
Proof.
  apply (logged_samples_monotone None [block 60; overrun_block 40] mf_1M 0
           (fst (fst overrun_run)) (snd (fst overrun_run)) (snd overrun_run)
           [clock_at 100 0; clock_at 101 0]).
  - vm_compute. split; discriminate.
  - vm_compute. reflexivity.
  - repeat constructor; unfold obeys; vm_compute; intros; discriminate.
Defined.

Lemma last_option_wins_witness :
  parse_fsize "2G" = Some (max_size args_two_sizes).
Proof.
  apply (last_option_wins [opt_f "capture.iq"; opt_s "1M"] [opt_g "30"] "2G"
           args_two_sizes).
  - vm_compute. reflexivity.
  - repeat constructor.
Defined.

Lemma last_filename_wins_witness :
  fname args_1M = Some "capture.iq".
Proof.
  apply (last_filename_wins [opt_f "first.iq"] [opt_s "1M"] "capture.iq" args_1M).
  - vm_compute. reflexivity.
  - repeat constructor.
Defined.

Lemma missing_filename_is_usage_error_witness :
  exists w,
    main (quiet_env [] None) [opt_s "1M"; opt_g "30"] = (Exited 1, w) /\
    out w = [ev_usage] /\ fs w = fs0 (quiet_env [] None) /\ fds w = ∅.
Proof.
  apply (missing_filename_is_usage_error (quiet_env [] None) [opt_s "1M"; opt_g "30"]).
  - repeat constructor.
  - vm_compute. discriminate.
Defined.


Lemma failed_setup_finalizes_witness :
  exists a fn,
    getopt_loop cli_1M args_init = Parsed a /\ fname a = Some fn /\
    fst (main set_frequency_fails_env cli_1M)
    = Exited (if stop_flag (signal_at set_frequency_fails_env) 0 then 0 else 1) /\
    close_file_calls (out (snd (main set_frequency_fails_env cli_1M))) = 1%nat /\
    select is_sync_rx (out (snd (main set_frequency_fails_env cli_1M))) = [] /\
    fs0 set_frequency_fails_env !! fn = None /\
    fs (snd (main set_frequency_fails_env cli_1M)) !! fn
    = Some (if truncate_fails set_frequency_fails_env then max_size a else 0).
Proof.
  apply (failed_setup_finalizes set_frequency_fails_env cli_1M
           (fst (main set_frequency_fails_env cli_1M))
           (snd (main set_frequency_fails_env cli_1M))).
  - vm_compute. reflexivity.
  - vm_compute. reflexivity.
Defined.

Lemma existing_log_is_refused_witness :
  exists w,
    main existing_log_env cli_logged = (Exited (-1), w) /\
    fs w = fs0 existing_log_env /\
    out w = [ev_fopen "capture.log" false; ev_perror "logfile fopen"].
Proof.
  apply (existing_log_is_refused existing_log_env cli_logged args_logged
           "capture.iq" "capture.log").
  - vm_compute. reflexivity.
  - reflexivity.
  - vm_compute. discriminate.
  - reflexivity.
  - left. vm_compute. eauto.
Defined.

Lemma log_is_created_before_artifact_witness :
  exists w,
    main (quiet_env [] None) cli_same_path = (Exited (-1), w) /\
    fs w = <[ "capture.iq" := 0 ]> (fs0 (quiet_env [] None)) /\
    existsb is_dev_event (out w) = false.
Proof.
  apply (log_is_created_before_artifact (quiet_env [] None) cli_same_path args_same_path
           "capture.iq" "capture.iq").
  - vm_compute. reflexivity.
  - reflexivity.
  - vm_compute. discriminate.
  - reflexivity.
  - reflexivity.
  - reflexivity.
  - left. reflexivity.
Defined.
